(** * GraphDefinition: a shallow embedding of
      [src/graphnet/models/graphs/graph_definition.py]

    The Python class [GraphDefinition] turns a table of detector pulses (a
    numpy array plus the names of its columns) into a torch-geometric [Data]
    object.  The embedding follows the methods of the class one by one:

    - Python exceptions are an explicit [result] type;
    - the instance ([self]), the numpy arrays reachable from the caller and
      the log are threaded through a state monad [M]; an exception keeps the
      state reached so far, as in Python;
    - numpy arrays are held by reference in a heap, since [_perturb_input]
      assigns into the array it was given;
    - a [Data] object is a finite map from field names to values
      ([graph.x] and [graph["x"]] denote the same entry);
    - the collaborators that live outside the file (numpy's generator,
      [torch.tensor], the detector and the node and edge definitions) are the
      fields of three interfaces, over which the development is parametric. *)

From Stdlib Require Import ZArith PrimFloat.
From stdpp Require Import base option list gmap strings.

Set Warnings "-register-all".

Local Open Scope string_scope.
Local Open Scope list_scope.

(** ** Python values and exceptions *)

Inductive PyExn :=
| AssertionError
| ValueError
| TypeError
| AttributeError
| IndexError
| RuntimeError
| DanglingReference.  (* never raised by Python: a reference is always live *)

Inductive result (A : Type) :=
| Ok (a : A)
| Raise (e : PyExn).
Arguments Ok {A} a.
Arguments Raise {A} e.

Definition rbind {A B} (r : result A) (k : A → result B) : result B :=
  match r with
  | Ok a => k a
  | Raise e => Raise e
  end.

Definition is_Ok {A} (r : result A) : Prop :=
  match r with Ok _ => True | Raise _ => False end.

(** Values a truth dictionary may hold ([Dict[str, Any]]). *)
Inductive PyValue :=
| PyNone
| PyBool (b : bool)
| PyInt (z : Z)
| PyFloat (f : float)
| PyStr (s : string)
| PyList (l : list PyValue).

(** [type(value).__name__] *)
Definition type_name (v : PyValue) : string :=
  match v with
  | PyNone => "NoneType"
  | PyBool _ => "bool"
  | PyInt _ => "int"
  | PyFloat _ => "float"
  | PyStr _ => "str"
  | PyList _ => "list"
  end.

(** ** numpy arrays and torch tensors *)

(** A two-dimensional [np.ndarray] of binary64 entries, of shape
    [(length nd_rows, nd_ncols)]. *)
Record ndarray := { nd_ncols : nat; nd_rows : list (list float) }.

Definition nd_wf (a : ndarray) : Prop :=
  Forall (λ r, length r = nd_ncols a) (nd_rows a).

Inductive Dtype := Float16 | Float32 | Float64 | Int32 | Int64 | Bool.

Inductive Scalar :=
| SInt (z : Z)
| SFloat (f : float)
| SBool (b : bool).

(** Tensors of rank at most two. *)
Inductive TData :=
| T0 (s : Scalar)
| T1 (v : list Scalar)
| T2 (ncols : nat) (rows : list (list Scalar)).

Record Tensor := { t_dtype : Dtype; t_data : TData; requires_grad : bool }.

Definition t_shape (t : Tensor) : list nat :=
  match t_data t with
  | T0 _ => []
  | T1 v => [length v]
  | T2 d rows => [length rows; d]
  end.

(** ** The [Data] object *)

Inductive FieldVal :=
| FTensor (t : Tensor)
| FStr (s : string)
| FNames (l : list string)
| FPy (v : PyValue).

Abbreviation Graph := (gmap string FieldVal).

(** ** Validation of the input table *)

(** The loop [for idx in range(len(input_feature_names)): assert ...] *)
Fixpoint assert_names (idxs : list nat) (got expected : list string)
  : result unit :=
  match idxs with
  | [] => Ok tt
  | idx :: rest =>
      match got !! idx, expected !! idx with
      | Some a, Some b =>
          if decide (a = b) then assert_names rest got expected
          else Raise AssertionError
      | _, _ => Raise IndexError
      end
  end.

Definition validate (expected : list string)
    (input_features : ndarray) (input_feature_names : list string)
  : result unit :=
  if negb (nd_ncols input_features =? length input_feature_names)%nat
  then Raise AssertionError
  else if negb (length input_feature_names =? length expected)%nat
  then Raise AssertionError
  else assert_names (seq 0 (length input_feature_names))
         input_feature_names expected.

(** ** Interfaces of the collaborators *)

(** [numpy.random]: [default_rng(seed)], [default_rng()] (state taken from
    the operating system's entropy, here an explicit argument), the check
    numpy makes on each [scale], and the draw of one normal sample, which
    advances the generator. *)
Class RandomLib := {
  Generator : Type;
  default_rng : Z → result Generator;
  default_rng_entropy : Z → Generator;
  valid_scale : float → bool;
  normal_sample : Generator → float → float → float * Generator
}.

(** [torch]: conversion of one element to a dtype, and [torch.tensor(value)]
    on an arbitrary Python value, which raises on values it cannot convert. *)
Class TorchLib := {
  cast : Dtype → Scalar → Scalar;
  torch_tensor : PyValue → result Tensor
}.

(** [Detector], [NodeDefinition] and [EdgeDefinition]. *)
Class Delegates := {
  Detector : Type;
  NodeDefinition : Type;
  EdgeDefinition : Type;
  feature_map_keys : Detector → list string;
  detector_call : Detector → Tensor → list string → result Tensor;
  set_output_feature_names : NodeDefinition → list string → NodeDefinition;
  set_number_of_inputs : NodeDefinition → list string → NodeDefinition;
  node_nb_outputs : NodeDefinition → nat;
  node_call : NodeDefinition → Tensor → result (Graph * list string);
  edge_call : EdgeDefinition → Graph → result Graph
}.

(** ** Tensor primitives used by the class *)

Section Tensors.
Context {T : TorchLib}.

Definition cast_data (dt : Dtype) (d : TData) : TData :=
  match d with
  | T0 s => T0 (cast dt s)
  | T1 v => T1 (map (cast dt) v)
  | T2 n rows => T2 n (map (map (cast dt)) rows)
  end.

(** [torch.tensor(array, dtype=dt)]: the data is copied. *)
Definition tensor_of_ndarray (dt : Dtype) (a : ndarray) : Tensor :=
  {| t_dtype := dt;
     t_data := T2 (nd_ncols a)
                 (map (map (λ f, cast dt (SFloat f))) (nd_rows a));
     requires_grad := false |}.

(** [torch.tensor(s, dtype=dt)] for a Python number [s] *)
Definition scalar_tensor (dt : Dtype) (s : Scalar) : Tensor :=
  {| t_dtype := dt; t_data := T0 (cast dt s); requires_grad := false |}.

(** [t.type(dt)] *)
Definition tensor_type (dt : Dtype) (t : Tensor) : Tensor :=
  {| t_dtype := dt; t_data := cast_data dt (t_data t);
     requires_grad := requires_grad t |}.
End Tensors.

(** [t.reshape(-1, 1)] *)
Definition reshape_column (t : Tensor) : Tensor :=
  {| t_dtype := t_dtype t;
     t_data := match t_data t with
               | T0 s => T2 1 [[s]]
               | T1 v => T2 1 (map (λ s, [s]) v)
               | T2 _ rows => T2 1 (map (λ s, [s]) (concat rows))
               end;
     requires_grad := requires_grad t |}.

(** [len(t)] *)
Definition tensor_len (t : Tensor) : result nat :=
  match t_data t with
  | T0 _ => Raise TypeError
  | T1 v => Ok (length v)
  | T2 _ rows => Ok (length rows)
  end.

(** [t[:, index]] *)
Definition select_column (t : Tensor) (index : nat) : result Tensor :=
  match t_data t with
  | T2 d rows =>
      if (index <? d)%nat then
        match mapM (λ r : list Scalar, r !! index) rows with
        | Some col => Ok {| t_dtype := t_dtype t; t_data := T1 col;
                            requires_grad := requires_grad t |}
        | None => Raise IndexError
        end
      else Raise IndexError
  | _ => Raise IndexError
  end.

(** [t.detach()] *)
Definition detach (t : Tensor) : Tensor :=
  {| t_dtype := t_dtype t; t_data := t_data t; requires_grad := false |}.

(** [dtype.is_floating_point] *)
Definition is_floating_point (dt : Dtype) : bool :=
  match dt with
  | Float16 | Float32 | Float64 => true
  | Int32 | Int64 | Bool => false
  end.

(** [module.to(dtype)] of [torch.nn.Module], which the class inherits: "only
    accepts floating point or complex dtypes", and raises [TypeError] on any
    other. *)
Definition module_to (dt : Dtype) : result unit :=
  if is_floating_point dt then Ok tt else Raise TypeError.

(** [graph.x] where a method of the tensor is called on it
    ([graph.x.type(..)]): a graph without [x] reads as [None], and neither
    [None] nor a value that is not a tensor has the method. *)
Definition get_x (graph : Graph) : result Tensor :=
  match graph !! "x" with
  | Some (FTensor t) => Ok t
  | _ => Raise AttributeError
  end.

(** [graph.x] where it is subscripted ([graph.x[:, index]]): [None] and the
    values that are not tensors reject the subscript with [TypeError]. *)
Definition subscript_x (graph : Graph) : result Tensor :=
  match graph !! "x" with
  | Some (FTensor t) => Ok t
  | _ => Raise TypeError
  end.

(** [graph[key] = value]: the storage of a [Data] object keeps no [None];
    assigning [None] stores nothing and drops the field if there is one. *)
Definition setitem (key : string) (value : FieldVal) (graph : Graph) : Graph :=
  match value with
  | FPy PyNone => delete key graph
  | _ => <[key := value]> graph
  end.

(** ** numpy primitives used by the class *)

(** [l.index(key)] *)
Fixpoint index (l : list string) (key : string) : result nat :=
  match l with
  | [] => Raise ValueError
  | a :: l' => if decide (a = key) then Ok 0%nat
               else rbind (index l' key) (λ i, Ok (S i))
  end.

(** [[f(k) for k in keys]] for a fallible [f] *)
Fixpoint comprehension {A B} (f : A → result B) (l : list A)
  : result (list B) :=
  match l with
  | [] => Ok []
  | a :: l' => rbind (f a) (λ b, rbind (comprehension f l') (λ bs, Ok (b :: bs)))
  end.

(** [a[:, cols]]: a fresh array holding the selected columns *)
Definition take_cols (a : ndarray) (cols : list nat)
  : result (list (list float)) :=
  if forallb (λ c, c <? nd_ncols a)%nat cols then
    match mapM (λ r : list float, mapM (λ c, r !! c) cols) (nd_rows a) with
    | Some m => Ok m
    | None => Raise IndexError
    end
  else Raise IndexError.

(** One row of [a[:, cols] = vals]: entry [cols[j]] receives [vals[j]]. *)
Fixpoint write_row (row : list float) (cols : list nat) (vals : list float)
  : list float :=
  match cols, vals with
  | c :: cols', v :: vals' => write_row (<[c := v]> row) cols' vals'
  | _, _ => row
  end.

(** [a[:, cols] = vals], for [vals] of shape [(rows, len(cols))] *)
Definition write_cols (a : ndarray) (cols : list nat)
    (vals : list (list float)) : result ndarray :=
  if forallb (λ c, c <? nd_ncols a)%nat cols then
    if (length vals =? length (nd_rows a))%nat
       && forallb (λ v : list float, length v =? length cols)%nat vals
    then Ok {| nd_ncols := nd_ncols a;
               nd_rows := zip_with (λ row v, write_row row cols v)
                            (nd_rows a) vals |}
    else Raise ValueError
  else Raise IndexError.

Section Sampling.
Context {R : RandomLib}.

(** One row of [rng.normal(loc, scale)]: [scale] is broadcast along the
    rows, and the samples are drawn left to right. *)
Fixpoint normal_row (g : Generator) (loc scale : list float)
  : result (list float * Generator) :=
  match loc, scale with
  | [], [] => Ok ([], g)
  | l :: loc', s :: scale' =>
      let '(v, g1) := normal_sample g l s in
      rbind (normal_row g1 loc' scale') (λ '(vs, g2), Ok (v :: vs, g2))
  | _, _ => Raise ValueError
  end.

Fixpoint normal_rows (g : Generator) (loc : list (list float))
    (scale : list float) : result (list (list float) * Generator) :=
  match loc with
  | [] => Ok ([], g)
  | r :: loc' =>
      rbind (normal_row g r scale) (λ '(vs, g1),
      rbind (normal_rows g1 loc' scale) (λ '(m, g2), Ok (vs :: m, g2)))
  end.

(** [rng.normal(loc=loc, scale=scale)]; numpy checks [scale] before it
    draws anything. *)
Definition rng_normal (g : Generator) (loc : list (list float))
    (scale : list float) : result (list (list float) * Generator) :=
  if forallb valid_scale scale then normal_rows g loc scale
  else Raise ValueError.
End Sampling.

(** ** A state monad with exceptions

    A computation receives the state and returns a result together with the
    state it reached: a raised exception does not undo earlier effects. *)

Definition StateErr (S A : Type) : Type := S → result A * S.

Definition ret {S A} (a : A) : StateErr S A := λ s, (Ok a, s).
Definition raise {S A} (e : PyExn) : StateErr S A := λ s, (Raise e, s).
Definition lift {S A} (r : result A) : StateErr S A := λ s, (r, s).
Definition bind {S A B} (m : StateErr S A) (k : A → StateErr S B)
  : StateErr S B :=
  λ s, match m s with
       | (Ok a, s') => k a s'
       | (Raise e, s') => (Raise e, s')
       end.

Global Instance StateErr_ret S : MRet (StateErr S) := λ A a, ret a.
Global Instance StateErr_bind S : MBind (StateErr S) := λ A B k m, bind m k.

(** ** The instance, the log and the state *)

(** The three messages passed to [warning_once]. *)
Inductive Warning :=
| WPerturb (keys : list string) (stds : list float)
| WNoEdges
| WReservedX.

Inductive WarningSite := SitePerturb | SiteNoEdges | SiteReservedX.

Global Instance WarningSite_eq_dec : EqDecision WarningSite.
Proof. solve_decision. Defined.

Definition site (w : Warning) : WarningSite :=
  match w with
  | WPerturb _ _ => SitePerturb
  | WNoEdges => SiteNoEdges
  | WReservedX => SiteReservedX
  end.

Inductive Event :=
| EvWarning (w : Warning)
| EvDebug (key type : string)
| EvDetector (x : Tensor) (names : list string)
| EvNodeDefinition (x : Tensor)
| EvEdgeDefinition (graph : Graph)
| EvCustomLabel (key : string) (graph : Graph).

Section GraphDefinition.
Context {R : RandomLib} {T : TorchLib} {D : Delegates}.

Inductive Seed :=
| SeedInt (z : Z)
| SeedGenerator (g : Generator)
| SeedOther.

(** The attributes of an instance.  [_perturbation_cols] is assigned only
    when a perturbation dictionary is given, and no statement of the class
    assigns [_loss_weight_default_value]: [None] stands for an attribute
    that does not exist.  [warned] is the registry behind [warning_once]. *)
Record GraphDefinition := {
  _detector : Detector;
  _edge_definition : option EdgeDefinition;
  _node_definition : NodeDefinition;
  _perturbation_dict : option (list (string * float));
  _input_feature_names : list string;
  dtype : Dtype;
  nb_inputs : nat;
  nb_outputs : nat;
  _perturbation_cols : option (list nat);
  rng : Generator;
  _loss_weight_default_value : option float;
  class_name : string;
  warned : list WarningSite
}.

Definition set_rng (g : Generator) (s : GraphDefinition) : GraphDefinition :=
  {| _detector := _detector s; _edge_definition := _edge_definition s;
     _node_definition := _node_definition s;
     _perturbation_dict := _perturbation_dict s;
     _input_feature_names := _input_feature_names s; dtype := dtype s;
     nb_inputs := nb_inputs s; nb_outputs := nb_outputs s;
     _perturbation_cols := _perturbation_cols s; rng := g;
     _loss_weight_default_value := _loss_weight_default_value s;
     class_name := class_name s; warned := warned s |}.

Definition set_warned (w : list WarningSite) (s : GraphDefinition)
  : GraphDefinition :=
  {| _detector := _detector s; _edge_definition := _edge_definition s;
     _node_definition := _node_definition s;
     _perturbation_dict := _perturbation_dict s;
     _input_feature_names := _input_feature_names s; dtype := dtype s;
     nb_inputs := nb_inputs s; nb_outputs := nb_outputs s;
     _perturbation_cols := _perturbation_cols s; rng := rng s;
     _loss_weight_default_value := _loss_weight_default_value s;
     class_name := class_name s; warned := w |}.

(** *** [__init__] *)

(** The statement [if seed is not None: ... else: ...] that sets [self.rng];
    [entropy] is what the operating system hands to [default_rng()]. *)
Definition resolve_seed (seed : option Seed) (entropy : Z)
  : result Generator :=
  match seed with
  | Some (SeedInt z) => default_rng z
  | Some (SeedGenerator g) => Ok g
  | Some SeedOther => Raise ValueError
  | None => Ok (default_rng_entropy entropy)
  end.

(** The constructor, with the class name that the base class records and
    the entropy [default_rng()] reads as arguments.  The statements are
    those of the source in their order: the names are resolved, handed to
    the node definition, [self.to(dtype)] sets the dtype or raises, and only
    then are the perturbation columns and the seed looked at.  The setters
    of the node definition are functions: the instance holds the node
    definition they return (the sharing of the default [NodesAsPulses()]
    object between instances is not represented). *)
Definition __init__ (detector : Detector) (node_definition : NodeDefinition)
    (edge_definition : option EdgeDefinition)
    (input_feature_names : option (list string)) (dtype : Dtype)
    (perturbation_dict : option (list (string * float)))
    (seed : option Seed) (class_name : string) (entropy : Z)
  : result GraphDefinition :=
  let input_feature_names :=
    match input_feature_names with
    | None => feature_map_keys detector
    | Some names => names
    end in
  let node_definition :=
    set_output_feature_names node_definition input_feature_names in
  rbind (module_to dtype) (λ _,
  let node_definition :=
    set_number_of_inputs node_definition input_feature_names in
  rbind (match perturbation_dict with
         | Some d =>
             rbind (comprehension (index input_feature_names) (map fst d))
                   (λ cols, Ok (Some cols))
         | None => Ok None
         end) (λ perturbation_cols,
  rbind (resolve_seed seed entropy) (λ rng,
  Ok {| _detector := detector; _edge_definition := edge_definition;
        _node_definition := node_definition;
        _perturbation_dict := perturbation_dict;
        _input_feature_names := input_feature_names; dtype := dtype;
        nb_inputs := length input_feature_names;
        nb_outputs := node_nb_outputs node_definition;
        _perturbation_cols := perturbation_cols; rng := rng;
        _loss_weight_default_value := None;
        class_name := class_name; warned := [] |}))).

(** *** The state threaded through a call *)

Record State := {
  self : GraphDefinition;
  heap : gmap nat ndarray;
  log : list Event
}.

Abbreviation M := (StateErr State).

Definition attr {A} (f : GraphDefinition → A) : M A :=
  λ s, (Ok (f (self s)), s).
Definition emit (e : Event) : M unit :=
  λ s, (Ok tt, {| self := self s; heap := heap s; log := log s ++ [e] |}).

Definition deref (l : nat) : M ndarray :=
  λ s, match heap s !! l with
       | Some a => (Ok a, s)
       | None => (Raise DanglingReference, s)
       end.
Definition store (l : nat) (a : ndarray) : M unit :=
  λ s, (Ok tt, {| self := self s; heap := <[l := a]> (heap s);
                  log := log s |}).

(** the generator is advanced in place *)
Definition put_rng (g : Generator) : M unit :=
  λ s, (Ok tt, {| self := set_rng g (self s); heap := heap s;
                  log := log s |}).

(** Modelled from the spec: [warning_once] of the base class [Model], which
    is not part of the file; the message of a call site is logged the first
    time the site is reached on this instance and dropped afterwards. *)
Definition warning_once (w : Warning) : M unit :=
  λ s, if decide (site w ∈ warned (self s)) then (Ok tt, s)
       else (Ok tt, {| self := set_warned (site w :: warned (self s)) (self s);
                       heap := heap s; log := log s ++ [EvWarning w] |}).

(** [self.debug(msg)] *)
Definition debug (key type : string) : M unit := emit (EvDebug key type).

(** *** [_validate_input] *)
Definition _validate_input (input_features : nat)
    (input_feature_names : list string) : M unit :=
  a ← deref input_features;
  expected ← attr _input_feature_names;
  lift (validate expected a input_feature_names).

(** *** [_perturb_input] *)
Definition _perturb_input (input_features : nat) : M nat :=
  d ← attr _perturbation_dict;
  match d with
  | Some d =>
      warning_once (WPerturb (map fst d) (map snd d));;
      g ← attr rng;
      a ← deref input_features;
      cols ← attr _perturbation_cols;
      cols ← lift (match cols with
                   | Some c => Ok c
                   | None => Raise AttributeError
                   end);
      loc ← lift (take_cols a cols);
      '(perturbed_features, g') ← lift (rng_normal g loc (map snd d));
      put_rng g';;
      a' ← lift (write_cols a cols perturbed_features);
      store input_features a';;
      mret input_features
  | None => mret input_features
  end.

(** *** [_add_loss_weights] *)
Definition _add_loss_weights (graph : Graph)
    (loss_weight_column : option string) (loss_weight : option float)
    (loss_weight_default_value : option float) : M Graph :=
  match loss_weight, loss_weight_column with
  | Some w, Some column =>
      if PrimFloat.ltb w 0%float then
        match loss_weight_default_value with
        | None => raise ValueError
        | Some _ =>
            v ← attr _loss_weight_default_value;
            v ← lift (match v with
                      | Some v => Ok v
                      | None => Raise AttributeError
                      end);
            dt ← attr dtype;
            mret (<[column :=
                      FTensor (reshape_column (scalar_tensor dt (SFloat v)))]>
                    graph)
        end
      else
        dt ← attr dtype;
        mret (<[column :=
                  FTensor (reshape_column (scalar_tensor dt (SFloat w)))]>
                graph)
  | _, _ => mret graph
  end.

(** *** [_add_truth] *)

(** [try: graph[key] = torch.tensor(value) except TypeError: self.debug(..)] *)
Definition add_truth_item (graph : Graph) (key : string) (value : PyValue)
  : M Graph :=
  match torch_tensor value with
  | Ok t => mret (<[key := FTensor t]> graph)
  | Raise TypeError => debug key (type_name value);; mret graph
  | Raise e => raise e
  end.

Fixpoint add_truth_dict (graph : Graph) (items : list (string * PyValue))
  : M Graph :=
  match items with
  | [] => mret graph
  | (key, value) :: rest =>
      graph ← add_truth_item graph key value;
      add_truth_dict graph rest
  end.

Fixpoint _add_truth (graph : Graph)
    (truth_dicts : list (list (string * PyValue))) : M Graph :=
  match truth_dicts with
  | [] => mret graph
  | truth_dict :: rest =>
      graph ← add_truth_dict graph truth_dict;
      _add_truth graph rest
  end.

(** *** [_add_custom_labels] *)
Fixpoint _add_custom_labels (graph : Graph)
    (custom_label_functions : list (string * (Graph → result FieldVal)))
  : M Graph :=
  match custom_label_functions with
  | [] => mret graph
  | (key, fn) :: rest =>
      emit (EvCustomLabel key graph);;
      v ← lift (fn graph);
      _add_custom_labels (setitem key v graph) rest
  end.

(** *** [_add_features_individually] *)
Fixpoint add_features_loop (graph : Graph) (items : list (nat * string))
  : M Graph :=
  match items with
  | [] => mret graph
  | (index, feature) :: rest =>
      if decide (feature ≠ "x") then
        x ← lift (subscript_x graph);
        column ← lift (select_column x index);
        add_features_loop (<[feature := FTensor (detach column)]> graph) rest
      else
        warning_once WReservedX;;
        add_features_loop graph rest
  end.

(** [enumerate(l)] *)
Definition enumerate {A} (l : list A) : list (nat * A) :=
  zip (seq 0 (length l)) l.

Definition _add_features_individually (graph : Graph)
    (node_feature_names : list string) : M Graph :=
  add_features_loop (<["features" := FNames node_feature_names]> graph)
    (enumerate node_feature_names).

(** *** [forward] *)

(** The statements of [forward] from the conversion to a tensor on; they
    are named so that the lemmas on what they leave alone can be stated. *)
Definition assemble (input_features : nat)
    (input_feature_names : list string)
    (truth_dicts : option (list (list (string * PyValue))))
    (custom_label_functions :
       option (list (string * (Graph → result FieldVal))))
    (loss_weight_column : option string) (loss_weight : option float)
    (loss_weight_default_value : option float)
    (data_path : option string) : M Graph :=
  a ← deref input_features;
  dt ← attr dtype;
  let input_features := tensor_of_ndarray dt a in
  detector ← attr _detector;
  emit (EvDetector input_features input_feature_names);;
  input_features ← lift (detector_call detector input_features
                           input_feature_names);
  node_definition ← attr _node_definition;
  emit (EvNodeDefinition input_features);;
  '(graph, node_feature_names) ← lift (node_call node_definition
                                         input_features);
  x ← lift (get_x graph);
  let graph := <["x" := FTensor (tensor_type dt x)]> graph in
  n ← lift (tensor_len input_features);
  let graph :=
    <["n_pulses" := FTensor (scalar_tensor Int32 (SInt (Z.of_nat n)))]>
      graph in
  edge_definition ← attr _edge_definition;
  graph ← match edge_definition with
          | Some ed => emit (EvEdgeDefinition graph);;
                       lift (edge_call ed graph)
          | None => warning_once WNoEdges;; mret graph
          end;
  let graph := match data_path with
               | Some path => <["dataset_path" := FStr path]> graph
               | None => graph
               end in
  graph ← _add_loss_weights graph loss_weight_column loss_weight
            loss_weight_default_value;
  graph ← match truth_dicts with
          | Some truth_dicts => _add_truth graph truth_dicts
          | None => mret graph
          end;
  graph ← match custom_label_functions with
          | Some fns => _add_custom_labels graph fns
          | None => mret graph
          end;
  graph ← _add_features_individually graph node_feature_names;
  name ← attr class_name;
  mret (<["graph_definition" := FStr name]> graph).

Definition forward (input_features : nat)
    (input_feature_names : list string)
    (truth_dicts : option (list (list (string * PyValue))))
    (custom_label_functions :
       option (list (string * (Graph → result FieldVal))))
    (loss_weight_column : option string) (loss_weight : option float)
    (loss_weight_default_value : option float)
    (data_path : option string) : M Graph :=
  _validate_input input_features input_feature_names;;
  input_features ← _perturb_input input_features;
  assemble input_features input_feature_names truth_dicts
    custom_label_functions loss_weight_column loss_weight
    loss_weight_default_value data_path.
(** *** Reference points for the statements *)

(** Column [c] of a table, row by row. *)
Definition column (a : ndarray) (c : nat) : list (option float) :=
  map (λ r : list float, r !! c) (nd_rows a).

(** What [_perturb_input] leaves in the table and in the generator, as a
    function of the instance and of the table it was given. *)
Definition perturbed_table (g : GraphDefinition) (a : ndarray)
  : ndarray * Generator :=
  match _perturbation_dict g, _perturbation_cols g with
  | Some d, Some cols =>
      match take_cols a cols with
      | Ok loc =>
          match rng_normal (rng g) loc (map snd d) with
          | Ok (perturbed_features, g') =>
              match write_cols a cols perturbed_features with
              | Ok a' => (a', g')
              | Raise _ => (a, g')
              end
          | Raise _ => (a, rng g)
          end
      | Raise _ => (a, rng g)
      end
  | _, _ => (a, rng g)
  end.

(** The fields that the items of the truth dictionaries, taken in order,
    should leave on the graph: every value [torch.tensor] converts is stored
    under its key, later values replacing earlier ones. *)
Definition attach_truth (graph : Graph) (items : list (string * PyValue))
  : Graph :=
  foldl (λ g kv, match torch_tensor kv.2 with
                 | Ok t => <[kv.1 := FTensor t]> g
                 | Raise _ => g
                 end) graph items.

(** The diagnostics for the values [torch.tensor] rejects with [TypeError]. *)
Definition diagnostics (items : list (string * PyValue)) : list Event :=
  flat_map (λ kv, match torch_tensor kv.2 with
                  | Raise TypeError => [EvDebug kv.1 (type_name kv.2)]
                  | _ => []
                  end) items.

(** A value that is converted, or else rejected with [TypeError]. *)
Definition coercible (v : PyValue) : Prop :=
  match torch_tensor v with
  | Ok _ | Raise TypeError => True
  | Raise _ => False
  end.

(** The invariant [__init__] sets up between the perturbation dictionary and
    the cached column indices. *)
Definition resolved (g : GraphDefinition) : Prop :=
  match _perturbation_dict g with
  | Some d =>
      ∃ cols, _perturbation_cols g = Some cols
              ∧ comprehension (index (_input_feature_names g)) (map fst d)
                = Ok cols
  | None => True
  end.

End GraphDefinition.

Abbreviation M := (StateErr State).

(** ** Predicates on computations *)

Section Predicates.
Context {R : RandomLib} {D : Delegates}.

(** A computation is quiet when it changes nothing but the registry of
    [warning_once] and the log, which it may extend. *)
Definition quiet {A} (m : M A) : Prop :=
  ∀ s, ∃ w evs,
    (m s).2 = {| self := set_warned w (self s); heap := heap s;
                 log := log s ++ evs |}.

(** A computation is stable when it changes nothing of the instance but the
    generator and the registry of warnings. *)
Definition stable {A} (m : M A) : Prop :=
  ∀ s, ∃ g w, self (m s).2 = set_warned w (set_rng g (self s)).

(** A property of the instance that does not depend on the generator or on
    the registry of warnings. *)
Definition kept (I : GraphDefinition → Prop) : Prop :=
  ∀ g r w, I g → I (set_warned w (set_rng r g)).

(** [m] raises from every state whose instance satisfies [I]. *)
Definition raises_under (I : GraphDefinition → Prop) {A} (m : M A) : Prop :=
  ∀ s, I (self s) → ∃ e s', m s = (Raise e, s').
End Predicates.

(** * Stand-ins for the collaborators

    Small executable instances of the three interfaces, on which the
    statements below are run. *)

Module Demo.
(** A generator is the tape of standard normal draws it has yet to
    produce; a sample is [loc + scale * z].  As numpy does, [default_rng]
    rejects a negative seed and [normal] a negative scale. *)
Definition tape (z : Z) : list float :=
  if Z.even z then [1; -2; 0.5; 4; -1; 2]%float
  else [-0.5; 3; 1; -4; 2; 0.25]%float.

Definition random : RandomLib :=
  {| Generator := list float;
     default_rng z := if (z <? 0)%Z then Raise ValueError else Ok (tape z);
     default_rng_entropy := tape;
     valid_scale f := negb (PrimFloat.ltb f 0%float);
     normal_sample g loc scale :=
       match g with
       | z :: g' => (PrimFloat.add loc (PrimFloat.mul scale z), g')
       | [] => (loc, [])
       end |}.

Definition ints (l : list PyValue) : option (list Scalar) :=
  mapM (λ v, match v with PyInt z => Some (SInt z) | _ => None end) l.

(** [torch.tensor] on Python values: numbers and lists of integers are
    converted; a text raises [TypeError] ("invalid data type 'str'"),
    [None] raises [RuntimeError] ("Could not infer dtype of NoneType") and
    a list with other entries raises [ValueError].  Conversion between
    dtypes keeps the value. *)
Definition torch : TorchLib :=
  {| cast _ s := s;
     torch_tensor v :=
       match v with
       | PyNone => Raise RuntimeError
       | PyBool b => Ok {| t_dtype := Bool; t_data := T0 (SBool b);
                           requires_grad := false |}
       | PyInt z => Ok {| t_dtype := Int64; t_data := T0 (SInt z);
                          requires_grad := false |}
       | PyFloat f => Ok {| t_dtype := Float32; t_data := T0 (SFloat f);
                            requires_grad := false |}
       | PyStr _ => Raise TypeError
       | PyList l =>
           match ints l with
           | Some v => Ok {| t_dtype := Int64; t_data := T1 v;
                             requires_grad := false |}
           | None => Raise ValueError
           end
       end |}.

(** A detector that leaves the features as they are, a node definition
    that makes one node per row (as [NodesAsPulses]) and an edge
    definition that attaches an empty [edge_index]. *)
Definition delegates : Delegates :=
  {| Detector := list string;
     NodeDefinition := list string;
     EdgeDefinition := unit;
     feature_map_keys d := d;
     detector_call _ x _ := Ok x;
     set_output_feature_names _ names := names;
     set_number_of_inputs nd _ := nd;
     node_nb_outputs nd := length nd;
     node_call nd x := Ok ({["x" := FTensor x]}, nd);
     edge_call _ graph :=
       Ok (<["edge_index" := FTensor {| t_dtype := Int64; t_data := T2 0 [];
                                        requires_grad := false |}]> graph) |}.

(** A table of two pulses with the features [a], [b], [c]. *)
Definition table : ndarray :=
  {| nd_ncols := 3; nd_rows := [[1; 2; 3]; [4; 5; 6]]%float |}.

Definition names : list string := ["a"; "b"; "c"].

#[local] Existing Instances random torch delegates.

(** The instance [__init__] builds for these names with seed 7 and no
    perturbation, and the one it builds when [b] is to be perturbed with
    standard deviation 0.5. *)
Definition plain : GraphDefinition :=
  {| _detector := names; _edge_definition := None;
     _node_definition := names; _perturbation_dict := None;
     _input_feature_names := names; dtype := Float32;
     nb_inputs := 3; nb_outputs := 3; _perturbation_cols := None;
     rng := tape 7; _loss_weight_default_value := None;
     class_name := "KNNGraph"; warned := [] |}.

Definition perturbing : GraphDefinition :=
  {| _detector := names; _edge_definition := None;
     _node_definition := names;
     _perturbation_dict := Some [("b", 0.5%float)];
     _input_feature_names := names; dtype := Float32;
     nb_inputs := 3; nb_outputs := 3; _perturbation_cols := Some [1];
     rng := tape 7; _loss_weight_default_value := None;
     class_name := "KNNGraph"; warned := [] |}.

(** A node tensor of two rows and three columns that tracks gradients. *)
Definition node_tensor : Tensor :=
  {| t_dtype := Float32;
     t_data := T2 3 [[SFloat 1; SFloat 2; SFloat 3];
                     [SFloat 4; SFloat 5; SFloat 6]];
     requires_grad := true |}.

(** [plain] with an edge definition. *)
Definition edged : GraphDefinition :=
  {| _detector := names; _edge_definition := Some tt;
     _node_definition := names; _perturbation_dict := None;
     _input_feature_names := names; dtype := Float32;
     nb_inputs := 3; nb_outputs := 3; _perturbation_cols := None;
     rng := tape 7; _loss_weight_default_value := None;
     class_name := "KNNGraph"; warned := [] |}.

(** Instances with a negative standard deviation for [b], with an empty
    perturbation dictionary, and with a name that two columns carry. *)
Definition negative_scale : GraphDefinition :=
  {| _detector := names; _edge_definition := None;
     _node_definition := names;
     _perturbation_dict := Some [("b", (-1)%float)];
     _input_feature_names := names; dtype := Float32;
     nb_inputs := 3; nb_outputs := 3; _perturbation_cols := Some [1];
     rng := tape 7; _loss_weight_default_value := None;
     class_name := "KNNGraph"; warned := [] |}.

Definition empty_dict : GraphDefinition :=
  {| _detector := names; _edge_definition := None;
     _node_definition := names; _perturbation_dict := Some [];
     _input_feature_names := names; dtype := Float32;
     nb_inputs := 3; nb_outputs := 3; _perturbation_cols := Some [];
     rng := tape 7; _loss_weight_default_value := None;
     class_name := "KNNGraph"; warned := [] |}.

Definition repeated : GraphDefinition :=
  {| _detector := ["a"; "b"; "a"]; _edge_definition := None;
     _node_definition := ["a"; "b"; "a"];
     _perturbation_dict := Some [("a", 2%float)];
     _input_feature_names := ["a"; "b"; "a"]; dtype := Float32;
     nb_inputs := 3; nb_outputs := 3; _perturbation_cols := Some [0];
     rng := tape 7; _loss_weight_default_value := None;
     class_name := "KNNGraph"; warned := [] |}.

(** Three label functions: the second reads the label of the first and
    raises [TypeError] when it finds it. *)
Definition one : Graph → result FieldVal := λ _, Ok (FPy (PyInt 1)).
Definition two : Graph → result FieldVal :=
  λ g, match g !! "one" with
       | Some (FPy (PyInt 1)) => Raise TypeError
       | _ => Ok (FPy PyNone)
       end.
Definition three : Graph → result FieldVal := λ _, Ok (FPy (PyInt 3)).

(** The caller holds the table at reference 0 and nothing is logged yet. *)
Definition start (g : GraphDefinition) : State :=
  {| self := g; heap := {[0 := table]}; log := [] |}.
End Demo.

(** * Properties *)

(** ** Validation *)

Lemma assert_names_spec (got expected : list string) (m k : nat) :
  k + m = length got → length got = length expected →
  (assert_names (seq k m) got expected = Ok tt
     ↔ ∀ idx, k ≤ idx < k + m → got !! idx = expected !! idx)
  ∧ (assert_names (seq k m) got expected = Ok tt
     ∨ assert_names (seq k m) got expected = Raise AssertionError).
Proof.
  revert k. induction m as [|m IH]; intros k Hk Hlen; simpl.
  - split; [|by left]. split; [intros _ idx ?; lia | done].
  - destruct (lookup_lt_is_Some_2 got k) as [a Ha]; [lia|].
    destruct (lookup_lt_is_Some_2 expected k) as [b Hb]; [lia|].
    rewrite Ha, Hb. destruct (decide (a = b)) as [->|Hne].
    + destruct (IH (S k)) as [[IH1 IH2] IH3]; [lia|done|].
      split; [|done]. split.
      * intros Hok idx Hidx. destruct (decide (idx = k)) as [->|];
          [congruence | apply IH1; [done | lia]].
      * intros Hall. apply IH2. intros idx Hidx. apply Hall. lia.
    + split; [|by right]. split; [done|].
      intros Hall. specialize (Hall k). rewrite Ha, Hb in Hall.
      exfalso. apply Hne. assert (Some a = Some b) by (apply Hall; lia).
      congruence.
Qed.

Lemma validate_spec (expected : list string) (a : ndarray)
    (names : list string) :
  (validate expected a names = Ok tt
     ↔ nd_ncols a = length names ∧ length names = length expected
       ∧ ∀ idx, idx < length names → names !! idx = expected !! idx)
  ∧ (validate expected a names = Ok tt
     ∨ validate expected a names = Raise AssertionError).
Proof.
  unfold validate.
  destruct (Nat.eqb_spec (nd_ncols a) (length names)) as [Hc|Hc]; simpl.
  2:{ split; [|by right]. split; [done | intros [? _]; done]. }
  destruct (Nat.eqb_spec (length names) (length expected)) as [Hl|Hl]; simpl.
  2:{ split; [|by right]. split; [done | intros (_ & ? & _); done]. }
  destruct (assert_names_spec names expected (length names) 0) as [[H1 H2] H3];
    [lia | done |].
  split; [|done]. split.
  - intros Hok. repeat split; [done..|]. intros idx Hidx. apply H1; [done|lia].
  - intros (_ & _ & Hall). apply H2. intros idx Hidx. apply Hall. lia.
Qed.

Lemma validate_Ok_eq (expected : list string) (a : ndarray)
    (names : list string) :
  validate expected a names = Ok tt
  ↔ nd_ncols a = length names ∧ names = expected.
Proof.
  destruct (validate_spec expected a names) as [-> _]. split.
  - intros (Hc & Hl & Hall). split; [done|].
    apply list_eq. intros idx. destruct (decide (idx < length names)).
    + by apply Hall.
    + rewrite !lookup_ge_None_2; [done | lia..].
  - intros [Hc ->]. done.
Qed.

Section Validation.
Context {R : RandomLib} {T : TorchLib} {D : Delegates}.

Lemma _validate_input_run (s : State) (l : nat) (a : ndarray)
    (names : list string) :
  heap s !! l = Some a →
  _validate_input l names s
  = (validate (_input_feature_names (self s)) a names, s).
Proof.
  intros Hl. unfold _validate_input, mbind, StateErr_bind, bind, deref.
  by rewrite Hl.
Qed.

(** C2: on a live table, [_validate_input] returns normally exactly when
    the table has as many columns as names were given, as many names were
    given as the instance was configured with, and the names agree with
    the configured ones position by position; otherwise it raises
    [AssertionError] and leaves the state as it was.  In particular a list
    of names that differs from the configured one (a reordering, a list
    with a name left out, a list of another length) is rejected. *)
Theorem validate_input_iff (s : State) (l : nat) (a : ndarray)
    (names : list string) :
  heap s !! l = Some a →
  let expected := _input_feature_names (self s) in
  (_validate_input l names s = (Ok tt, s)
     ↔ nd_ncols a = length names ∧ length names = length expected
       ∧ ∀ idx, idx < length names → names !! idx = expected !! idx)
  ∧ (_validate_input l names s = (Ok tt, s)
     ∨ _validate_input l names s = (Raise AssertionError, s))
  ∧ (names ≠ expected →
     _validate_input l names s = (Raise AssertionError, s))
  ∧ (names ≡ₚ expected → names ≠ expected →
     _validate_input l names s = (Raise AssertionError, s))
  ∧ (sublist names expected → names ≠ expected →
     _validate_input l names s = (Raise AssertionError, s))
  ∧ (length names ≠ length expected →
     _validate_input l names s = (Raise AssertionError, s))
  ∧ (nd_ncols a ≠ length names →
     _validate_input l names s = (Raise AssertionError, s)).
Proof.
  intros Hl expected. rewrite (_validate_input_run s l a names Hl).
  fold expected.
  destruct (validate_spec expected a names) as [Hiff Hor].
  assert (Hne : names ≠ expected ∨ nd_ncols a ≠ length names →
                (validate expected a names, s) = (Raise AssertionError, s)).
  { intros Hbad. destruct Hor as [Hok| ->]; [|done].
    apply validate_Ok_eq in Hok as [? ?]. destruct Hbad; done. }
  split; [|split; [|repeat split]].
  - rewrite <- Hiff. split; [by intros [= ->] | by intros ->].
  - destruct Hor as [-> | ->]; [by left | by right].
  - intros ?. apply Hne. by left.
  - intros _ ?. apply Hne. by left.
  - intros _ ?. apply Hne. by left.
  - intros ?. apply Hne. left. congruence.
  - intros ?. apply Hne. by right.
Qed.
End Validation.

(** ** What a stage leaves alone *)

Create HintDb quiet.

Section Frame.
Context {R : RandomLib} {T : TorchLib} {D : Delegates}.

Lemma bind_Ok {A B} (m : M A) (k : A → M B) s a s' :
  m s = (Ok a, s') → (m ≫= k) s = k a s'.
Proof. intros Hm. unfold mbind, StateErr_bind, bind. by rewrite Hm. Qed.

Lemma bind_Raise {A B} (m : M A) (k : A → M B) s e s' :
  m s = (Raise e, s') → (m ≫= k) s = (Raise e, s').
Proof. intros Hm. unfold mbind, StateErr_bind, bind. by rewrite Hm. Qed.

Lemma set_warned_id (g : GraphDefinition) : set_warned (warned g) g = g.
Proof. by destruct g. Qed.

Lemma quiet_here {A} (m : M A) : (∀ s, (m s).2 = s) → quiet m.
Proof.
  intros Hm s. exists (warned (self s)), []. rewrite Hm, set_warned_id.
  rewrite app_nil_r. by destruct s.
Qed.

Lemma quiet_ret {A} (a : A) : quiet (mret a).
Proof. by apply quiet_here. Qed.

Lemma quiet_raise {A} e : quiet (raise (A := A) e).
Proof. by apply quiet_here. Qed.

Lemma quiet_lift {A} (r : result A) : quiet (lift r).
Proof. by apply quiet_here. Qed.

Lemma quiet_attr {A} (f : GraphDefinition → A) : quiet (attr f).
Proof. by apply quiet_here. Qed.

Lemma quiet_deref l : quiet (deref l).
Proof. apply quiet_here. intros s. unfold deref. by destruct (heap s !! l). Qed.

Lemma quiet_emit e : quiet (emit e).
Proof.
  intros s. exists (warned (self s)), [e]. by rewrite set_warned_id.
Qed.

Lemma quiet_warning_once w : quiet (warning_once w).
Proof.
  intros s. unfold warning_once. case_decide.
  - by apply (quiet_here (λ s, (Ok tt, s))).
  - by exists (site w :: warned (self s)), [EvWarning w].
Qed.

Lemma quiet_bind {A B} (m : M A) (k : A → M B) :
  quiet m → (∀ a, quiet (k a)) → quiet (m ≫= k).
Proof.
  intros Hm Hk s. destruct (Hm s) as (w & evs & Hs).
  destruct (m s) as [[a|e] s1] eqn:Hrun; simpl in Hs; subst s1.
  - rewrite (bind_Ok _ _ _ _ _ Hrun).
    destruct (Hk a {| self := set_warned w (self s); heap := heap s;
                      log := log s ++ evs |}) as (w' & evs' & ->).
    exists w', (evs ++ evs'). simpl. by rewrite app_assoc.
  - rewrite (bind_Raise _ _ _ _ _ Hrun). by exists w, evs.
Qed.

End Frame.

#[global] Hint Resolve quiet_ret quiet_raise quiet_lift quiet_attr quiet_deref
  quiet_emit quiet_warning_once : quiet.

Ltac quiet_step :=
  first [ apply quiet_bind; [|intros]
        | progress auto with quiet
        | match goal with
          | |- quiet (match ?x with _ => _ end) => destruct x
          | |- quiet (if ?x then _ else _) => destruct x
          | |- quiet (let '(_, _) := ?x in _) => destruct x
          end ].

Section FrameOfStages.
Context {R : RandomLib} {T : TorchLib} {D : Delegates}.

Lemma quiet__add_loss_weights graph column w d :
  quiet (_add_loss_weights graph column w d).
Proof. unfold _add_loss_weights. repeat quiet_step. Qed.

Lemma quiet_add_truth_item graph key value :
  quiet (add_truth_item graph key value).
Proof. unfold add_truth_item, debug. repeat quiet_step. Qed.

Lemma quiet_add_truth_dict items : ∀ graph, quiet (add_truth_dict graph items).
Proof.
  induction items as [|[key value] rest IH]; intros graph; simpl.
  - apply quiet_ret.
  - apply quiet_bind; [apply quiet_add_truth_item | done].
Qed.

Lemma quiet__add_truth dicts : ∀ graph, quiet (_add_truth graph dicts).
Proof.
  induction dicts as [|d rest IH]; intros graph; simpl.
  - apply quiet_ret.
  - apply quiet_bind; [apply quiet_add_truth_dict | done].
Qed.

Lemma quiet__add_custom_labels fns :
  ∀ graph, quiet (_add_custom_labels graph fns).
Proof.
  induction fns as [|[key fn] rest IH]; intros graph; simpl.
  - apply quiet_ret.
  - repeat quiet_step; try apply IH.
Qed.

Lemma quiet_add_features_loop items :
  ∀ graph, quiet (add_features_loop graph items).
Proof.
  induction items as [|[idx feature] rest IH]; intros graph; simpl.
  - apply quiet_ret.
  - repeat quiet_step; try apply IH.
Qed.

Lemma quiet__add_features_individually graph names :
  quiet (_add_features_individually graph names).
Proof. apply quiet_add_features_loop. Qed.

Lemma quiet_assemble l names truth fns column w d path :
  quiet (assemble l names truth fns column w d path).
Proof.
  unfold assemble.
  repeat first [ apply quiet__add_loss_weights | apply quiet__add_truth
               | apply quiet__add_custom_labels
               | apply quiet__add_features_individually | quiet_step ].
Qed.

Lemma quiet__validate_input l names : quiet (_validate_input l names).
Proof. unfold _validate_input. repeat quiet_step. Qed.
End FrameOfStages.

#[global] Hint Resolve quiet__add_loss_weights quiet__add_truth
  quiet__add_custom_labels quiet__add_features_individually : quiet.

(** ** Fail-fast validation *)

Section FailFast.
Context {R : RandomLib} {T : TorchLib} {D : Delegates}.

Lemma _validate_input_state (s : State) l names :
  (_validate_input l names s).2 = s.
Proof.
  unfold _validate_input, mbind, StateErr_bind, bind, deref.
  by destruct (heap s !! l).
Qed.

(** C3: when [_validate_input] raises, [forward] raises the same exception
    and returns no graph, and the state is the one the call started from:
    the table and the generator are as they were (no perturbation), the log
    has no new entry (the detector, the node definition and the edge
    definition were not called, nothing was warned about) and no field was
    attached to anything. *)
Theorem forward_fails_fast (s s1 : State) (l : nat) (names : list string)
    truth fns column w d path (e : PyExn) :
  _validate_input l names s = (Raise e, s1) →
  forward l names truth fns column w d path s = (Raise e, s)
  ∧ s1 = s.
Proof.
  intros Hv. pose proof (_validate_input_state s l names) as Hs.
  rewrite Hv in Hs. simpl in Hs. subst s1. split; [|done].
  unfold forward. by rewrite (bind_Raise _ _ _ _ _ Hv).
Qed.
End FailFast.

(** ** Resolving names to columns *)

Lemma index_Ok (l : list string) (key : string) (i : nat) :
  index l key = Ok i →
  l !! i = Some key ∧ ∀ j, j < i → l !! j ≠ Some key.
Proof.
  revert i. induction l as [|a l IH]; intros i; simpl; [done|].
  destruct (decide (a = key)) as [->|Hne].
  - intros [= <-]. split; [done | intros j ?; lia].
  - destruct (index l key) as [i'|e] eqn:Hi; simpl; [|done].
    intros [= <-]. destruct (IH i' eq_refl) as [Hl Hfirst].
    split; [done|]. intros [|j] Hj; simpl; [congruence | apply Hfirst; lia].
Qed.

Lemma index_Raise (l : list string) (key : string) (e : PyExn) :
  index l key = Raise e → e = ValueError ∧ key ∉ l.
Proof.
  induction l as [|a l IH]; simpl.
  - intros [= <-]. split; [done | apply not_elem_of_nil].
  - destruct (decide (a = key)) as [->|Hne]; [done|].
    destruct (index l key) as [i'|e'] eqn:Hi; simpl; [done|].
    intros [= <-]. destruct (IH eq_refl) as [-> Hnin].
    split; [done|]. rewrite elem_of_cons. intros [?|?]; congruence.
Qed.

Lemma index_is_Ok (l : list string) (key : string) :
  key ∈ l → ∃ i, index l key = Ok i.
Proof.
  intros Hin. destruct (index l key) as [i|e] eqn:Hi; [by exists i|].
  by apply index_Raise in Hi as [_ ?].
Qed.

Lemma comprehension_Ok {A B} (f : A → result B) (l : list A) (bs : list B) :
  comprehension f l = Ok bs ↔ Forall2 (λ a b, f a = Ok b) l bs.
Proof.
  revert bs. induction l as [|a l IH]; intros bs; simpl.
  - split; [intros [= <-]; constructor | by intros ->%Forall2_nil_inv_l].
  - split.
    + destruct (f a) as [b|] eqn:Hb; simpl; [|done].
      destruct (comprehension f l) as [bs'|] eqn:Hbs; simpl; [|done].
      intros [= <-]. constructor; [done | by apply IH].
    + intros (b & bs' & Hb & Hbs & ->)%Forall2_cons_inv_l.
      rewrite Hb. simpl. apply IH in Hbs. by rewrite Hbs.
Qed.

Lemma comprehension_Raise {A B} (f : A → result B) (l : list A) (e : PyExn) :
  comprehension f l = Raise e → ∃ a, a ∈ l ∧ f a = Raise e.
Proof.
  induction l as [|a l IH]; simpl; [done|].
  destruct (f a) as [b|e'] eqn:Hb; simpl.
  - destruct (comprehension f l) as [bs'|e'] eqn:Hbs; simpl; [done|].
    intros [= <-]. destruct (IH eq_refl) as (a' & ? & ?).
    exists a'. split; [by right | done].
  - intros [= <-]. exists a. split; [by left | done].
Qed.

Lemma comprehension_is_Ok {A B} (f : A → result B) (l : list A) :
  Forall (λ a, ∃ b, f a = Ok b) l → ∃ bs, comprehension f l = Ok bs.
Proof.
  intros Hall. destruct (comprehension f l) as [bs|e] eqn:Hc; [by exists bs|].
  apply comprehension_Raise in Hc as (a & Hin & Hf).
  rewrite Forall_forall in Hall. destruct (Hall a Hin) as [b Hb]. congruence.
Qed.

Lemma resolved_NoDup (names keys : list string) (cols : list nat) :
  Forall2 (λ key c, index names key = Ok c) keys cols →
  NoDup keys → NoDup cols.
Proof.
  induction 1 as [|key c keys cols Hc HF IH]; intros Hnd; [constructor|].
  apply NoDup_cons in Hnd as [Hnotin Hnd]. constructor; [|by apply IH].
  intros (j & Hj)%list_elem_of_lookup.
  destruct (Forall2_lookup_r _ _ _ _ _ HF Hj) as (key' & Hkey' & Hi).
  apply index_Ok in Hc as [Hc _]. apply index_Ok in Hi as [Hi _].
  assert (key' = key) as -> by congruence.
  apply Hnotin, list_elem_of_lookup. eauto.
Qed.

(** The resolved columns lie inside the name list and carry the key they
    were resolved from; those of distinct keys are distinct. *)
Lemma resolved_columns (names keys : list string) (cols : list nat) :
  comprehension (index names) keys = Ok cols →
  length cols = length keys
  ∧ (∀ j key, keys !! j = Some key →
       ∃ i, cols !! j = Some i ∧ names !! i = Some key
            ∧ ∀ i', i' < i → names !! i' ≠ Some key)
  ∧ (∀ c, c ∈ cols → ∃ key, key ∈ keys ∧ names !! c = Some key)
  ∧ Forall (λ c, c < length names) cols
  ∧ (NoDup keys → NoDup cols).
Proof.
  rewrite comprehension_Ok. intros HF.
  assert (Hin : ∀ c, c ∈ cols → ∃ key, key ∈ keys ∧ names !! c = Some key).
  { intros c (j & Hj)%list_elem_of_lookup.
    destruct (Forall2_lookup_r _ _ _ _ _ HF Hj) as (key & Hkey & Hi).
    apply index_Ok in Hi as [? _]. exists key. split; [|done].
    apply list_elem_of_lookup. eauto. }
  split; [symmetry; by eapply Forall2_length|].
  split; [|split; [done|split]].
  - intros j key Hkey.
    destruct (Forall2_lookup_l _ _ _ _ _ HF Hkey) as (i & Hi & Hidx).
    apply index_Ok in Hidx as [? ?]. eauto.
  - apply Forall_forall. intros c (key & _ & Hc)%Hin.
    by apply lookup_lt_Some in Hc.
  - by apply (resolved_NoDup names keys).
Qed.

(** ** Writing columns *)

Lemma length_write_row (cols : list nat) :
  ∀ (row vals : list float), length (write_row row cols vals) = length row.
Proof.
  induction cols as [|c cols IH]; intros row [|v vals]; simpl; try done.
  by rewrite IH, length_insert.
Qed.

Lemma write_row_other (cols : list nat) (c : nat) :
  c ∉ cols →
  ∀ (row vals : list float), write_row row cols vals !! c = row !! c.
Proof.
  induction cols as [|c' cols IH]; intros Hc row [|v vals]; simpl; try done.
  apply not_elem_of_cons in Hc as [Hne Hc].
  rewrite IH by done. by apply list_lookup_insert_ne.
Qed.

Lemma write_row_written (cols : list nat) :
  NoDup cols →
  ∀ (row vals : list float) j c v,
    cols !! j = Some c → vals !! j = Some v → c < length row →
    write_row row cols vals !! c = Some v.
Proof.
  induction 1 as [|c' cols Hnotin Hnd IH]; intros row vals j c v Hj Hv Hlen.
  { done. }
  destruct vals as [|v' vals]; [done|]. destruct j as [|j]; simpl in *.
  - injection Hj as ->. injection Hv as ->.
    rewrite write_row_other by done. by apply list_lookup_insert_eq.
  - eapply IH; [done..|]. by rewrite length_insert.
Qed.

Lemma take_cols_Ok (a : ndarray) (cols : list nat) :
  nd_wf a → Forall (λ c, c < nd_ncols a) cols →
  ∃ loc, take_cols a cols = Ok loc
         ∧ Forall2 (λ (row taken : list float),
                      Forall2 (λ c v, row !! c = Some v) cols taken)
             (nd_rows a) loc.
Proof.
  intros Hwf Hcols. unfold take_cols.
  assert (forallb (λ c, c <? nd_ncols a)%nat cols = true) as ->.
  { apply forallb_forall. intros c Hc%list_elem_of_In.
    rewrite Forall_forall in Hcols. apply Nat.ltb_lt. by apply Hcols. }
  destruct (mapM _ (nd_rows a)) as [loc|] eqn:Hm.
  - exists loc. split; [done|]. apply mapM_Some in Hm.
    eapply Forall2_impl; [done|]. intros row taken Hrow.
    by apply mapM_Some in Hrow.
  - exfalso. apply eq_None_not_Some in Hm. apply Hm, mapM_is_Some.
    unfold nd_wf in Hwf. eapply Forall_impl; [done|]. intros row Hrow.
    simpl in Hrow. apply mapM_is_Some. eapply Forall_impl; [done|].
    intros c Hc. simpl in Hc. apply lookup_lt_is_Some. lia.
Qed.



Lemma write_cols_Ok (a a' : ndarray) (cols : list nat)
    (vals : list (list float)) :
  write_cols a cols vals = Ok a' →
  nd_ncols a' = nd_ncols a
  ∧ nd_rows a' = zip_with (λ row v, write_row row cols v) (nd_rows a) vals
  ∧ length vals = length (nd_rows a)
  ∧ Forall (λ v : list float, length v = length cols) vals.
Proof.
  unfold write_cols. destruct (forallb _ cols); [|done].
  destruct (Nat.eqb_spec (length vals) (length (nd_rows a))) as [Hl|];
    simpl; [|done].
  destruct (forallb _ vals) eqn:Hv; [|done]. intros [= <-]. simpl.
  repeat split; [done|]. apply Forall_forall. intros v Hin%list_elem_of_In.
  rewrite forallb_forall in Hv. by apply Nat.eqb_eq, Hv.
Qed.

Lemma write_cols_is_Ok (a : ndarray) (cols : list nat)
    (vals : list (list float)) :
  Forall (λ c, c < nd_ncols a) cols →
  length vals = length (nd_rows a) →
  Forall (λ v : list float, length v = length cols) vals →
  ∃ a', write_cols a cols vals = Ok a'.
Proof.
  intros Hcols Hlen Hvals. unfold write_cols.
  assert (forallb (λ c, c <? nd_ncols a)%nat cols = true) as ->.
  { apply forallb_forall. intros c Hc%list_elem_of_In.
    rewrite Forall_forall in Hcols. apply Nat.ltb_lt. by apply Hcols. }
  rewrite Hlen, Nat.eqb_refl. simpl.
  assert (forallb (λ v : list float, length v =? length cols)%nat vals
          = true) as ->; [|by eexists].
  apply forallb_forall. intros v Hv%list_elem_of_In.
  rewrite Forall_forall in Hvals. by apply Nat.eqb_eq, Hvals.
Qed.

Lemma column_zip_with_write_row (cols : list nat) (c : nat) :
  c ∉ cols →
  ∀ (rows vals : list (list float)),
    map (λ r : list float, r !! c)
      (zip_with (λ row v, write_row row cols v) rows vals)
    = map (λ r : list float, r !! c) (take (length vals) rows).
Proof.
  intros Hc. induction rows as [|row rows IH]; intros [|v vals]; simpl;
    try done.
  by rewrite IH, write_row_other.
Qed.

Lemma write_cols_other_column (a a' : ndarray) (cols : list nat)
    (vals : list (list float)) (c : nat) :
  write_cols a cols vals = Ok a' → c ∉ cols → column a' c = column a c.
Proof.
  intros (_ & Hrows & Hlen & _)%write_cols_Ok Hc. unfold column.
  rewrite Hrows, column_zip_with_write_row by done.
  by rewrite Hlen, firstn_all.
Qed.

(** ** Drawing the samples *)

Section SamplingFacts.
Context {R : RandomLib}.

Lemma normal_row_is_Ok (scale : list float) :
  ∀ (g : Generator) (loc : list float),
    length loc = length scale →
    ∃ vs g', normal_row g loc scale = Ok (vs, g') ∧ length vs = length loc.
Proof.
  induction scale as [|sd scale IH]; intros g [|l loc] Hlen; simpl in *;
    try done.
  - by exists [], g.
  - destruct (normal_sample g l sd) as [v g1].
    destruct (IH g1 loc) as (vs & g2 & -> & Hvs); [lia|].
    exists (v :: vs), g2. simpl. by rewrite Hvs.
Qed.

Lemma normal_rows_is_Ok (scale : list float) (loc : list (list float)) :
  Forall (λ r : list float, length r = length scale) loc →
  ∀ g : Generator,
    ∃ m g', normal_rows g loc scale = Ok (m, g')
            ∧ length m = length loc
            ∧ Forall (λ v : list float, length v = length scale) m.
Proof.
  induction 1 as [|r loc Hr Hloc IH]; intros g; simpl.
  - by exists [], g.
  - destruct (normal_row_is_Ok scale g r Hr) as (vs & g1 & -> & Hvs). simpl.
    destruct (IH g1) as (m & g2 & -> & Hm & Hall). simpl.
    exists (vs :: m), g2. simpl. rewrite Hm. repeat split.
    constructor; [congruence | done].
Qed.
End SamplingFacts.

(** ** The perturbation stage *)

Section Perturbation.
Context {R : RandomLib} {T : TorchLib} {D : Delegates}.

Lemma set_rng_id (g : GraphDefinition) : set_rng (rng g) g = g.
Proof. by destruct g. Qed.

(** The whole effect of [_perturb_input]: the table behind the reference it
    was given and the generator are replaced by [perturbed_table], the
    registry of warnings and the log may grow, and the reference it returns
    is the one it was given. *)
Lemma _perturb_input_effect (s : State) (l : nat) (a : ndarray) :
  heap s !! l = Some a →
  ∃ r w evs,
    _perturb_input l s
    = (r, {| self := set_warned w
                       (set_rng (perturbed_table (self s) a).2 (self s));
             heap := <[l := (perturbed_table (self s) a).1]> (heap s);
             log := log s ++ evs |})
    ∧ (∀ l', r = Ok l' → l' = l)
    ∧ (∀ d cols loc p g' a',
         _perturbation_dict (self s) = Some d →
         _perturbation_cols (self s) = Some cols →
         take_cols a cols = Ok loc →
         rng_normal (rng (self s)) loc (map snd d) = Ok (p, g') →
         write_cols a cols p = Ok a' → r = Ok l).
Proof.
  intros Hl.
  assert (Hsame : ∀ w evs,
            {| self := set_warned w (self s); heap := heap s;
               log := log s ++ evs |}
            = {| self := set_warned w (set_rng (rng (self s)) (self s));
                 heap := <[l := a]> (heap s); log := log s ++ evs |}).
  { intros w evs. by rewrite set_rng_id, insert_id. }
  unfold _perturb_input, perturbed_table, mbind, StateErr_bind, bind, attr.
  destruct (_perturbation_dict (self s)) as [d|] eqn:Hd.
  2:{ exists (Ok l), (warned (self s)), []. simpl.
      split; [|split; [by intros ? [=] | done]].
      rewrite set_rng_id, set_warned_id, insert_id, app_nil_r by done.
      by destruct s. }
  assert (∃ w evs, warning_once (WPerturb (map fst d) (map snd d)) s
                   = (Ok tt, {| self := set_warned w (self s); heap := heap s;
                                log := log s ++ evs |})) as (w & evs & ->).
  { unfold warning_once. case_decide; [|by eexists _, _].
    exists (warned (self s)), []. rewrite set_warned_id, app_nil_r.
    by destruct s. }
  unfold deref, lift, put_rng, store. simpl. rewrite Hl. simpl.
  destruct (_perturbation_cols (self s)) as [cols|] eqn:Hcols.
  2:{ exists (Raise AttributeError), w, evs. rewrite <- Hsame.
      split; [done | split; [by intros ? [=] | intros; congruence]]. }
  destruct (take_cols a cols) as [loc|e] eqn:Htake.
  2:{ exists (Raise e), w, evs. rewrite <- Hsame.
      split; [done | split; [by intros ? [=] | intros; congruence]]. }
  destruct (rng_normal (rng (self s)) loc (map snd d)) as [[p g']|e] eqn:Hn.
  2:{ exists (Raise e), w, evs. rewrite <- Hsame.
      split; [done | split; [by intros ? [=] | intros; congruence]]. }
  destruct (write_cols a cols p) as [a'|e] eqn:Hw; simpl.
  - exists (Ok l), w, evs. split; [done | split; [by intros ? [=] | done]].
  - exists (Raise e), w, evs. rewrite insert_id by done.
    split; [done | split; [by intros ? [=] | intros; congruence]].
Qed.

(** What [forward] does to the heap and to the generator is what
    [_perturb_input] does, and only after a successful validation. *)
Lemma forward_effect (s : State) (l : nat) (a : ndarray) names truth fns
    column weight default path :
  heap s !! l = Some a →
  let g := self s in
  ∃ r w evs,
    forward l names truth fns column weight default path s
    = (r, match validate (_input_feature_names g) a names with
          | Ok _ =>
              {| self := set_warned w (set_rng (perturbed_table g a).2 g);
                 heap := <[l := (perturbed_table g a).1]> (heap s);
                 log := log s ++ evs |}
          | Raise _ => s
          end).
Proof.
  intros Hl g. subst g. unfold forward.
  pose proof (_validate_input_run s l a names Hl) as Hv.
  destruct (validate (_input_feature_names (self s)) a names) as [[]|e] eqn:Hok.
  2:{ rewrite (bind_Raise _ _ _ _ _ Hv). by exists (Raise e), [], []. }
  rewrite (bind_Ok _ _ _ _ _ Hv).
  destruct (_perturb_input_effect s l a Hl) as (r & w & evs & Hp & Href & _).
  destruct r as [l'|e].
  - rewrite (bind_Ok _ _ _ _ _ Hp).
    destruct (quiet_assemble l' names truth fns column weight default path
                {| self := set_warned w
                             (set_rng (perturbed_table (self s) a).2 (self s));
                   heap := <[l := (perturbed_table (self s) a).1]> (heap s);
                   log := log s ++ evs |}) as (w' & evs' & Hq).
    destruct (assemble _ _ _ _ _ _ _ _ _) as [r s']. simpl in Hq. subst s'.
    exists r, w', (evs ++ evs'). simpl. by rewrite app_assoc.
  - rewrite (bind_Raise _ _ _ _ _ Hp). by exists (Raise e), w, evs.
Qed.

(** Columns that were not resolved from a key keep their entries. *)
Lemma perturbed_table_other_column (g : GraphDefinition) (a : ndarray)
    (cols : list nat) (c : nat) :
  _perturbation_cols g = Some cols → c ∉ cols →
  column (perturbed_table g a).1 c = column a c.
Proof.
  intros Hcols Hc. unfold perturbed_table. rewrite Hcols.
  destruct (_perturbation_dict g) as [d|]; [|done].
  destruct (take_cols a cols) as [loc|]; [|done].
  destruct (rng_normal _ _ _) as [[p g']|]; [|done].
  destruct (write_cols a cols p) as [a'|] eqn:Hw; [|done].
  simpl. by eapply write_cols_other_column.
Qed.

Lemma __init___resolved detector node_definition edge_definition
    input_feature_names dt perturbation_dict seed name entropy
    (g : GraphDefinition) :
  __init__ detector node_definition edge_definition input_feature_names dt
    perturbation_dict seed name entropy = Ok g →
  resolved g
  ∧ _perturbation_dict g = perturbation_dict
  ∧ _input_feature_names g
    = match input_feature_names with
      | None => feature_map_keys detector
      | Some names => names
      end.
Proof.
  unfold __init__, resolved. intros Hinit.
  destruct (module_to dt); simpl in Hinit; [|done].
  destruct perturbation_dict as [d|]; simpl in Hinit.
  - destruct (comprehension _ (map fst d)) as [cols|] eqn:Hc;
      simpl in Hinit; [|done].
    destruct (resolve_seed seed entropy); simpl in Hinit; [|done].
    injection Hinit as <-. simpl. eauto.
  - destruct (resolve_seed seed entropy); simpl in Hinit; [|done].
    by injection Hinit as <-.
Qed.

(** The first thing [assemble] does is to hand the table, converted to the
    configured dtype, to the detector. *)
Lemma assemble_first_event (s : State) (l : nat) (a : ndarray) names truth
    fns column weight default path :
  heap s !! l = Some a →
  ∃ r w evs,
    assemble l names truth fns column weight default path s
    = (r, {| self := set_warned w (self s); heap := heap s;
             log := log s
                    ++ EvDetector (tensor_of_ndarray (dtype (self s)) a) names
                    :: evs |}).
Proof.
  intros Hl. unfold assemble.
  rewrite (bind_Ok (deref l) _ s a s) by (unfold deref; by rewrite Hl).
  rewrite (bind_Ok (attr dtype) _ s (dtype (self s)) s eq_refl).
  rewrite (bind_Ok (attr _detector) _ s (_detector (self s)) s eq_refl).
  rewrite (bind_Ok (emit _) _ s tt _ eq_refl).
  lazymatch goal with
  | |- ∃ r w evs, ?k ?s1 = _ =>
      assert (Hq : quiet k) by (repeat quiet_step);
      destruct (Hq s1) as (w & evs & Hs1); destruct (k s1) as [r s']
  end.
  simpl in Hs1. subst s'. exists r, w, evs. by rewrite <- app_assoc.
Qed.

(** C4: without a perturbation dictionary [_perturb_input] returns the
    reference it was given and changes nothing, so that the tensor the
    detector receives is the conversion of the caller's table as it was
    passed in, and the table is the same after the call; with a perturbation
    dictionary, whatever [_perturb_input] returns, the columns of the table
    whose names are not keys of the dictionary hold what they held before,
    and so does every other array. *)
Theorem perturbation_leaves_the_rest (s : State) (l : nat) (a : ndarray) :
  heap s !! l = Some a →
  (_perturbation_dict (self s) = None →
   _perturb_input l s = (Ok l, s)
   ∧ ∀ names truth fns column weight default path,
       validate (_input_feature_names (self s)) a names = Ok tt →
       ∃ r s' evs,
         forward l names truth fns column weight default path s = (r, s')
         ∧ heap s' = heap s
         ∧ log s'
           = log s
             ++ EvDetector (tensor_of_ndarray (dtype (self s)) a) names
             :: evs)
  ∧ (∀ d, _perturbation_dict (self s) = Some d → resolved (self s) →
     ∀ r s', _perturb_input l s = (r, s') →
     (∃ a', heap s' !! l = Some a'
            ∧ ∀ c name,
                _input_feature_names (self s) !! c = Some name →
                name ∉ map fst d → column a' c = column a c)
     ∧ ∀ l', l' ≠ l → heap s' !! l' = heap s !! l').
Proof.
  intros Hl. split.
  - intros Hd.
    assert (Hp : _perturb_input l s = (Ok l, s)).
    { unfold _perturb_input, mbind, StateErr_bind, bind, attr.
      by rewrite Hd. }
    split; [done|]. intros names truth fns column weight default path Hv.
    unfold forward.
    rewrite (bind_Ok _ _ _ _ _ (eq_trans (_validate_input_run s l a names Hl)
                                  (f_equal (λ r, (r, s)) Hv))).
    rewrite (bind_Ok _ _ _ _ _ Hp).
    destruct (assemble_first_event s l a names truth fns column weight
                default path Hl) as (r & w & evs & ->).
    by eexists _, _, _.
  - intros d Hd Hres r s' Hrun.
    destruct (_perturb_input_effect s l a Hl) as (r' & w & evs & Hp & _).
    rewrite Hrun in Hp. injection Hp as -> ->. simpl. split.
    + eexists. split; [apply lookup_insert_eq|]. intros c name Hc Hname.
      unfold resolved in Hres. rewrite Hd in Hres.
      destruct Hres as (cols & Hcols & Hcomp).
      apply (perturbed_table_other_column _ _ cols); [done|].
      intros Hin. apply resolved_columns in Hcomp as (_ & _ & Hkeys & _).
      destruct (Hkeys c Hin) as (key & Hkey & Hc'). congruence.
    + intros l' Hne. by apply lookup_insert_ne.
Qed.

(** C5: two instances built by [__init__] from the same arguments and the
    same integer seed (the entropy of the system is not consulted) leave the
    same table behind the caller's reference and the same generator, when
    they are called on tables with the same entries, be it by
    [_perturb_input] alone or by [forward]. *)
Theorem same_seed_same_perturbation
    detector node_definition edge_definition input_feature_names dt
    perturbation_dict (z : Z) name (entropy1 entropy2 : Z)
    (g1 g2 : GraphDefinition) (s1 s2 : State) (l1 l2 : nat) (a : ndarray)
    names truth fns column weight default path :
  __init__ detector node_definition edge_definition input_feature_names dt
    perturbation_dict (Some (SeedInt z)) name entropy1 = Ok g1 →
  __init__ detector node_definition edge_definition input_feature_names dt
    perturbation_dict (Some (SeedInt z)) name entropy2 = Ok g2 →
  self s1 = g1 → self s2 = g2 →
  heap s1 !! l1 = Some a → heap s2 !! l2 = Some a →
  g1 = g2
  ∧ heap (_perturb_input l1 s1).2 !! l1 = heap (_perturb_input l2 s2).2 !! l2
  ∧ rng (self (_perturb_input l1 s1).2) = rng (self (_perturb_input l2 s2).2)
  ∧ heap (forward l1 names truth fns column weight default path s1).2 !! l1
    = heap (forward l2 names truth fns column weight default path s2).2 !! l2
  ∧ rng (self (forward l1 names truth fns column weight default path s1).2)
    = rng (self (forward l2 names truth fns column weight default path s2).2).
Proof.
  intros Hg1 Hg2 Hs1 Hs2 Hl1 Hl2.
  assert (g1 = g2) as <-.
  { assert (Ok g1 = Ok g2) as [= ->]; [|done]. by rewrite <- Hg1, <- Hg2. }
  split; [done|].
  destruct (_perturb_input_effect s1 l1 a Hl1) as (r1 & w1 & ev1 & -> & _).
  destruct (_perturb_input_effect s2 l2 a Hl2) as (r2 & w2 & ev2 & -> & _).
  destruct (forward_effect s1 l1 a names truth fns column weight default path
              Hl1) as (q1 & v1 & ew1 & ->).
  destruct (forward_effect s2 l2 a names truth fns column weight default path
              Hl2) as (q2 & v2 & ew2 & ->).
  simpl. rewrite Hs1, Hs2, !lookup_insert_eq. repeat split.
  - destruct (validate _ a names); simpl;
      [by rewrite !lookup_insert_eq | congruence].
  - destruct (validate _ a names); simpl; [done | congruence].
Qed.

(** A call changes nothing of the instance but the generator and the
    registry of warnings. *)
Lemma forward_config (s : State) l names truth fns column weight default
    path :
  ∃ g' w,
    self (forward l names truth fns column weight default path s).2
    = set_warned w (set_rng g' (self s)).
Proof.
  destruct (heap s !! l) as [a|] eqn:Hl.
  - destruct (forward_effect s l a names truth fns column weight default path
                Hl) as (r & w & evs & ->). simpl.
    destruct (validate _ a names); simpl; [by eexists _, _|].
    exists (rng (self s)), (warned (self s)).
    by rewrite set_rng_id, set_warned_id.
  - assert (_validate_input l names s = (Raise DanglingReference, s)) as Hv.
    { unfold _validate_input, mbind, StateErr_bind, bind, deref.
      by rewrite Hl. }
    unfold forward. rewrite (bind_Raise _ _ _ _ _ Hv). simpl.
    exists (rng (self s)), (warned (self s)).
    by rewrite set_rng_id, set_warned_id.
Qed.

(** [resolved] holds of every instance a call can meet: [__init__] sets it
    up and [forward] keeps it. *)
Lemma resolved_forward (s : State) l names truth fns column weight default
    path :
  resolved (self s) →
  resolved (self (forward l names truth fns column weight default path s).2).
Proof.
  destruct (forward_config s l names truth fns column weight default path)
    as (g' & w & ->). done.
Qed.

(** C9: when the perturbation dictionary has a key that is not among the
    input feature names (those given, or else the keys of the detector's
    feature map), [__init__] returns no instance: it raises the [ValueError]
    of [list.index], unless the dtype is one that [self.to(dtype)], which
    comes first, rejects with [TypeError].  When the dtype is accepted,
    every key is among the names and the seed is accepted, [__init__]
    returns an instance whose [_perturbation_cols] lists, key by key, the
    first position of the key in the input feature names, and no call of
    [forward] changes that list.  With a dtype that is rejected nothing is
    resolved: [__init__] raises [TypeError] whatever the keys are. *)
Theorem perturbation_names_are_resolved_at_construction
    detector node_definition edge_definition input_feature_names dt
    (d : list (string * float)) seed name entropy :
  let names := match input_feature_names with
               | None => feature_map_keys detector
               | Some names => names
               end in
  (∀ key, key ∈ map fst d → key ∉ names →
     __init__ detector node_definition edge_definition input_feature_names
       dt (Some d) seed name entropy
     = Raise (if is_floating_point dt then ValueError else TypeError))
  ∧ (is_floating_point dt = true →
     Forall (λ key, key ∈ names) (map fst d) →
     is_Ok (resolve_seed seed entropy) →
     ∃ g cols,
       __init__ detector node_definition edge_definition input_feature_names
         dt (Some d) seed name entropy = Ok g
       ∧ _perturbation_dict g = Some d
       ∧ _input_feature_names g = names
       ∧ dtype g = dt
       ∧ _perturbation_cols g = Some cols
       ∧ length cols = length d
       ∧ (∀ j key, map fst d !! j = Some key →
            ∃ i, cols !! j = Some i ∧ names !! i = Some key
                 ∧ ∀ i', i' < i → names !! i' ≠ Some key)
       ∧ ∀ s l names' truth fns column weight default path,
           self s = g →
           _perturbation_cols
             (self (forward l names' truth fns column weight default path
                      s).2)
           = Some cols)
  ∧ (is_floating_point dt = false →
     __init__ detector node_definition edge_definition input_feature_names
       dt (Some d) seed name entropy = Raise TypeError).
Proof.
  intros names. split; [|split].
  - intros key Hin Hnotin. unfold __init__, module_to. fold names.
    destruct (is_floating_point dt); [|done]. simpl.
    destruct (comprehension (index names) (map fst d)) as [cols|e] eqn:Hc.
    + exfalso. apply resolved_columns in Hc as (_ & Hcols & _).
      apply list_elem_of_lookup in Hin as [j Hj].
      destruct (Hcols j key Hj) as (i & _ & Hi & _).
      apply Hnotin, list_elem_of_lookup. eauto.
    + simpl. apply comprehension_Raise in Hc as (key' & _ & Hraise).
      by apply index_Raise in Hraise as [-> _].
  - intros Hdt Hall Hseed.
    destruct (comprehension_is_Ok (index names) (map fst d)) as [cols Hc].
    { eapply Forall_impl; [done|]. intros key Hkey. by apply index_is_Ok. }
    destruct (resolve_seed seed entropy) as [g0|] eqn:Hs; [|done].
    eexists _, cols. unfold __init__, module_to. fold names.
    rewrite Hdt. simpl. rewrite Hc, Hs. simpl.
    apply resolved_columns in Hc as (Hlen & Hcols & _).
    repeat split; [by rewrite Hlen, length_map | done |].
    intros s l names' truth fns column weight default path Hself.
    destruct (forward_config s l names' truth fns column weight default path)
      as (g' & w & ->). simpl. by rewrite Hself.
  - intros Hdt. unfold __init__, module_to. by rewrite Hdt.
Qed.

(** C10: with a perturbation dictionary (of distinct keys and accepted
    standard deviations) on an instance whose columns are resolved, and a
    table that passes validation, [_perturb_input] draws one sample per
    entry of the perturbed columns, stores the samples in those columns of
    the array behind the reference it was given and returns that same
    reference; no array is allocated.  When [forward] returns, with a graph
    or with an exception of a later stage, the caller's array holds the
    samples. *)
Theorem perturbation_is_in_place (s : State) (l : nat) (a : ndarray)
    (d : list (string * float)) names truth fns column weight default path :
  heap s !! l = Some a → nd_wf a →
  _perturbation_dict (self s) = Some d → resolved (self s) →
  NoDup (map fst d) →
  forallb valid_scale (map snd d) = true →
  validate (_input_feature_names (self s)) a names = Ok tt →
  ∃ cols loc samples g' a',
    _perturbation_cols (self s) = Some cols
    ∧ take_cols a cols = Ok loc
    ∧ rng_normal (rng (self s)) loc (map snd d) = Ok (samples, g')
    ∧ (∃ s1, _perturb_input l s = (Ok l, s1)
             ∧ heap s1 = <[l := a']> (heap s)
             ∧ rng (self s1) = g')
    ∧ (∃ r s', forward l names truth fns column weight default path s
               = (r, s')
               ∧ heap s' = <[l := a']> (heap s))
    ∧ nd_ncols a' = nd_ncols a
    ∧ length (nd_rows a') = length (nd_rows a)
    ∧ length samples = length (nd_rows a)
    ∧ ∀ i j c row' sample_row,
        cols !! j = Some c → nd_rows a' !! i = Some row' →
        samples !! i = Some sample_row →
        is_Some (sample_row !! j) ∧ row' !! c = sample_row !! j.
Proof.
  intros Hl Hwf Hd Hres Hnd Hscale Hv.
  unfold resolved in Hres. rewrite Hd in Hres.
  destruct Hres as (cols & Hcols & Hcomp).
  apply resolved_columns in Hcomp as (Hlen & _ & _ & Hbound & Hnodup).
  specialize (Hnodup Hnd).
  pose proof Hv as Hv'. apply validate_Ok_eq in Hv' as [Hncols Hnames].
  assert (Hbound' : Forall (λ c, c < nd_ncols a) cols).
  { eapply Forall_impl; [done|]. simpl. intros c Hc. congruence. }
  destruct (take_cols_Ok a cols Hwf Hbound') as (loc & Htake & Hloc).
  assert (Hshape : Forall (λ r : list float, length r = length (map snd d))
                     loc).
  { apply Forall_forall. intros taken (i & Hi)%list_elem_of_lookup.
    destruct (Forall2_lookup_r _ _ _ _ _ Hloc Hi) as (row & _ & Hrow).
    apply Forall2_length in Hrow. rewrite length_map in *. congruence. }
  destruct (normal_rows_is_Ok _ _ Hshape (rng (self s)))
    as (samples & g' & Hn & Hslen & Hsshape).
  assert (Hnormal : rng_normal (rng (self s)) loc (map snd d)
                    = Ok (samples, g')).
  { unfold rng_normal. by rewrite Hscale. }
  assert (Hrows : length samples = length (nd_rows a)).
  { rewrite Hslen. symmetry. by eapply Forall2_length. }
  destruct (write_cols_is_Ok a cols samples) as [a' Hw]; [done..| |].
  { eapply Forall_impl; [done|]. simpl. intros v Hv'.
    rewrite length_map in *. congruence. }
  assert (Htable : perturbed_table (self s) a = (a', g')).
  { unfold perturbed_table. by rewrite Hd, Hcols, Htake, Hnormal, Hw. }
  exists cols, loc, samples, g', a'.
  destruct (write_cols_Ok _ _ _ _ Hw) as (Hc' & Hr' & _ & Hvals).
  split; [done|]. split; [done|]. split; [done|]. split; [|split].
  - destruct (_perturb_input_effect s l a Hl) as (r & w & evs & Hp & _ & Hok).
    rewrite (Hok d cols loc samples g' a') in Hp by done.
    rewrite Htable in Hp. by eexists.
  - destruct (forward_effect s l a names truth fns column weight default
                path Hl) as (r & w & evs & Hf).
    rewrite Hv, Htable in Hf. by eexists _, _.
  - split; [done|]. split.
    { rewrite Hr', length_zip_with. lia. }
    split; [done|]. intros i j c row' sample_row Hj Hi Hsample.
    rewrite Hr' in Hi. apply lookup_zip_with_Some in Hi
      as (row & v & -> & Hrow & Hv2).
    assert (v = sample_row) as -> by congruence.
    assert (Hjlen : j < length sample_row).
    { rewrite Forall_forall in Hvals.
      rewrite (Hvals sample_row) by (apply list_elem_of_lookup; eauto).
      by apply lookup_lt_Some in Hj. }
    destruct (lookup_lt_is_Some_2 _ _ Hjlen) as [x Hx].
    split; [by eexists|]. rewrite Hx.
    apply (write_row_written cols Hnodup row sample_row j c x); [done..|].
    unfold nd_wf in Hwf. rewrite Forall_forall in Hwf.
    rewrite Forall_forall in Hbound'.
    rewrite (Hwf row) by (apply list_elem_of_lookup; eauto).
    apply Hbound', list_elem_of_lookup. eauto.
Qed.
End Perturbation.

(** ** The loss weight *)

Section LossWeight.
Context {R : RandomLib} {T : TorchLib} {D : Delegates}.

Lemma stable_quiet {A} (m : M A) : quiet m → stable m.
Proof.
  intros Hq s. destruct (Hq s) as (w & evs & ->).
  exists (rng (self s)), w. simpl. by rewrite set_rng_id.
Qed.

Lemma stable__perturb_input l : stable (_perturb_input l).
Proof.
  intros s. destruct (heap s !! l) as [a|] eqn:Hl.
  - destruct (_perturb_input_effect s l a Hl) as (r & w & evs & -> & _).
    by eexists _, _.
  - unfold _perturb_input, mbind, StateErr_bind, bind, attr.
    destruct (_perturbation_dict (self s)).
    + unfold warning_once, deref. case_decide; simpl; rewrite Hl; simpl.
      * exists (rng (self s)), (warned (self s)).
        by rewrite set_rng_id, set_warned_id.
      * exists (rng (self s)), (SitePerturb :: warned (self s)).
        by rewrite set_rng_id.
    + exists (rng (self s)), (warned (self s)).
      by rewrite set_rng_id, set_warned_id.
Qed.

Lemma raises_bind_l I {A B} (m : M A) (k : A → M B) :
  raises_under I m → raises_under I (m ≫= k).
Proof.
  intros Hm s Hs. destruct (Hm s Hs) as (e & s' & Hrun).
  exists e, s'. by apply bind_Raise.
Qed.

Lemma raises_bind_r I {A B} (m : M A) (k : A → M B) :
  kept I → stable m → (∀ a, raises_under I (k a)) →
  raises_under I (m ≫= k).
Proof.
  intros HI Hm Hk s Hs. destruct (Hm s) as (g & w & Hself).
  destruct (m s) as [[a|e] s'] eqn:Hrun.
  - rewrite (bind_Ok _ _ _ _ _ Hrun). apply Hk.
    simpl in Hself. rewrite Hself. by apply HI.
  - exists e, s'. by apply bind_Raise.
Qed.

Lemma missing_default_raises graph column (w : float) (s : State) :
  PrimFloat.ltb w 0%float = true →
  _add_loss_weights graph (Some column) (Some w) None s
  = (Raise ValueError, s).
Proof. intros Hw. unfold _add_loss_weights. by rewrite Hw. Qed.

Lemma missing_attribute_raises graph column (w d : float) (s : State) :
  PrimFloat.ltb w 0%float = true →
  _loss_weight_default_value (self s) = None →
  _add_loss_weights graph (Some column) (Some w) (Some d) s
  = (Raise AttributeError, s).
Proof.
  intros Hw Hattr. unfold _add_loss_weights. rewrite Hw.
  unfold mbind, StateErr_bind, bind, attr, lift. by rewrite Hattr.
Qed.

(** [forward] raises as soon as [_add_loss_weights] does, if not before. *)
Lemma raises_forward (I : GraphDefinition → Prop) l names truth fns column
    weight default path :
  kept I →
  (∀ graph, raises_under I (_add_loss_weights graph column weight default)) →
  raises_under I (forward l names truth fns column weight default path).
Proof.
  intros HI Hstage. unfold forward.
  apply raises_bind_r; [done | apply stable_quiet, quiet__validate_input|].
  intros _.
  apply raises_bind_r; [done | apply stable__perturb_input|]. intros l'.
  unfold assemble.
  repeat first
    [ apply raises_bind_l; solve [apply Hstage]
    | apply raises_bind_r;
      [done | apply stable_quiet; repeat quiet_step | intros];
      try match goal with a : _ * _ |- _ => destruct a end ].
Qed.

(** C8: with a negative weight, a column name and no default,
    [_add_loss_weights] raises [ValueError] and the call of [forward]
    returns no graph; with no weight or no column name,
    [_add_loss_weights] returns the graph it was given, raises nothing and
    changes nothing. *)
Theorem loss_weight_missing_default_or_absent (graph : Graph) (s : State) :
  (∀ (c : string) (v : float),
     PrimFloat.ltb v 0%float = true →
     _add_loss_weights graph (Some c) (Some v) None s = (Raise ValueError, s)
     ∧ ∀ l names truth fns path,
         ∃ e s', forward l names truth fns (Some c) (Some v) None path s
                 = (Raise e, s'))
  ∧ (∀ column w d,
       column = None ∨ w = None →
       _add_loss_weights graph column w d s = (Ok graph, s)).
Proof.
  split.
  - intros c v Hv. split; [by apply missing_default_raises|].
    intros l names truth fns path.
    apply (raises_forward (λ _, True)); [done| |done].
    intros graph' s' _. eexists _, _. by apply missing_default_raises.
  - intros column w d [-> | ->]; unfold _add_loss_weights;
      [by destruct w | done].
Qed.

(** C1 (what the code does): with a negative weight and a column name, the
    default that is passed in is only tested for [None]; the value to store
    is read from the attribute [_loss_weight_default_value], which
    [__init__] never assigns.  On an instance built by [__init__], before or
    after any number of calls, [_add_loss_weights] therefore raises
    [AttributeError] whatever default was supplied, and [forward] returns
    no graph. *)
Theorem loss_weight_default_is_not_used
    detector node_definition edge_definition input_feature_names dt
    perturbation_dict seed name entropy (g : GraphDefinition)
    (s : State) (graph : Graph) (column : string) (w d : float)
    l names truth fns path :
  __init__ detector node_definition edge_definition input_feature_names dt
    perturbation_dict seed name entropy = Ok g →
  (∃ r v, self s = set_warned v (set_rng r g)) →
  PrimFloat.ltb w 0%float = true →
  _add_loss_weights graph (Some column) (Some w) (Some d) s
  = (Raise AttributeError, s)
  ∧ ∃ e s', forward l names truth fns (Some column) (Some w) (Some d) path s
            = (Raise e, s').
Proof.
  intros Hinit (r & v & Hs) Hw.
  assert (Hattr : _loss_weight_default_value (self s) = None).
  { rewrite Hs. unfold __init__ in Hinit.
    repeat match type of Hinit with
           | rbind ?r _ = _ => destruct r; simpl in Hinit; [|done]
           end.
    by injection Hinit as <-. }
  split; [by apply missing_attribute_raises|].
  apply (raises_forward (λ g, _loss_weight_default_value g = None));
    [by intros ? ? ? ? | | done].
  intros graph' s' Hs'. eexists _, _. by apply missing_attribute_raises.
Qed.
End LossWeight.

(** ** Truth labels *)

Section Truth.
Context {R : RandomLib} {T : TorchLib} {D : Delegates}.

Lemma add_truth_dict_app (l1 l2 : list (string * PyValue)) :
  ∀ (graph : Graph) (s : State),
    add_truth_dict graph (l1 ++ l2) s
    = (add_truth_dict graph l1 ≫= λ g, add_truth_dict g l2) s.
Proof.
  induction l1 as [|[key value] l1 IH]; intros graph s; [done|]. simpl.
  unfold mbind, StateErr_bind, bind.
  destruct (add_truth_item graph key value s) as [[g|e] s1]; [|done].
  apply IH.
Qed.

Lemma _add_truth_concat (dicts : list (list (string * PyValue))) :
  ∀ (graph : Graph) (s : State),
    _add_truth graph dicts s = add_truth_dict graph (concat dicts) s.
Proof.
  induction dicts as [|d dicts IH]; intros graph s; [done|]. simpl.
  rewrite add_truth_dict_app. unfold mbind, StateErr_bind, bind.
  destruct (add_truth_dict graph d s) as [[g|e] s1]; [apply IH | done].
Qed.

Lemma add_truth_dict_coercible (items : list (string * PyValue)) :
  Forall (λ kv, coercible kv.2) items →
  ∀ (graph : Graph) (s : State),
    add_truth_dict graph items s
    = (Ok (attach_truth graph items),
       {| self := self s; heap := heap s;
          log := log s ++ diagnostics items |}).
Proof.
  induction 1 as [|[key value] items Hv _ IH]; intros graph s; simpl.
  - rewrite app_nil_r. by destruct s.
  - unfold coercible in Hv. simpl in Hv.
    unfold mbind, StateErr_bind, bind, add_truth_item.
    destruct (torch_tensor value) as [t|[]]; try done; simpl.
    + rewrite IH. by destruct s.
    + rewrite IH. simpl. by rewrite <- app_assoc.
Qed.

Lemma attach_truth_app (graph : Graph) (l1 l2 : list (string * PyValue)) :
  attach_truth graph (l1 ++ l2) = attach_truth (attach_truth graph l1) l2.
Proof. apply foldl_app. Qed.

Lemma attach_truth_other (items : list (string * PyValue)) (key : string) :
  (∀ v t, (key, v) ∈ items → torch_tensor v ≠ Ok t) →
  ∀ graph : Graph, attach_truth graph items !! key = graph !! key.
Proof.
  induction items as [|[k v] items IH]; intros Hnone graph; [done|]. simpl.
  fold (attach_truth (match torch_tensor v with
                      | Ok t => <[k := FTensor t]> graph
                      | Raise _ => graph
                      end) items).
  rewrite IH by (intros v' t Hin; apply Hnone; by right).
  destruct (torch_tensor v) as [t|] eqn:Hv; [|done].
  apply lookup_insert_ne. intros ->. by apply (Hnone v t); [left|].
Qed.

(** C6, as the code has it: when every value of the truth dictionaries is
    converted by [torch.tensor] or rejected by it with [TypeError],
    [_add_truth] returns a graph, logs one diagnostic with the key and the
    name of the type for each rejected value and changes nothing else; in
    that graph a key holds the tensor of the last value that was converted
    for it, in the order of the dictionaries, and a key without such a value
    holds what it held before.  A value that [torch.tensor] rejects with
    another exception ends the call with that exception. *)
Theorem truth_labels (graph : Graph)
    (dicts : list (list (string * PyValue))) (s : State) :
  let items := concat dicts in
  (Forall (λ kv, coercible kv.2) items →
   _add_truth graph dicts s
   = (Ok (attach_truth graph items),
      {| self := self s; heap := heap s;
         log := log s ++ diagnostics items |}))
  ∧ (∀ key value, (key, value) ∈ items →
       torch_tensor value = Raise TypeError →
       EvDebug key (type_name value) ∈ diagnostics items)
  ∧ (∀ pre key value post t,
       items = pre ++ (key, value) :: post →
       torch_tensor value = Ok t →
       (∀ v t', (key, v) ∈ post → torch_tensor v ≠ Ok t') →
       attach_truth graph items !! key = Some (FTensor t))
  ∧ (∀ key, (∀ v t, (key, v) ∈ items → torch_tensor v ≠ Ok t) →
       attach_truth graph items !! key = graph !! key)
  ∧ (∀ pre key value post e,
       items = pre ++ (key, value) :: post →
       Forall (λ kv, coercible kv.2) pre →
       torch_tensor value = Raise e → e ≠ TypeError →
       _add_truth graph dicts s
       = (Raise e, {| self := self s; heap := heap s;
                      log := log s ++ diagnostics pre |})).
Proof.
  intros items. split; [|split; [|split; [|split]]].
  - intros Hall. rewrite _add_truth_concat. by apply add_truth_dict_coercible.
  - intros key value Hin Hv. unfold diagnostics.
    apply list_elem_of_In, in_flat_map. exists (key, value).
    split; [by apply list_elem_of_In|]. simpl. rewrite Hv. by left.
  - intros pre key value post t -> Hv Hpost.
    rewrite attach_truth_app. simpl.
    fold (attach_truth (match torch_tensor value with
                        | Ok t => <[key := FTensor t]> (attach_truth graph pre)
                        | Raise _ => attach_truth graph pre
                        end) post).
    rewrite attach_truth_other by done. rewrite Hv. apply lookup_insert_eq.
  - intros key Hnone. by apply attach_truth_other.
  - intros pre key value post e Hitems Hpre Hv He.
    rewrite _add_truth_concat. fold items. rewrite Hitems.
    rewrite add_truth_dict_app.
    rewrite (bind_Ok _ _ _ _ _ (add_truth_dict_coercible pre Hpre graph s)).
    simpl. unfold mbind, StateErr_bind, bind, add_truth_item. rewrite Hv.
    by destruct e.
Qed.
End Truth.

(** ** Node features as fields of their own *)

Section Features.
Context {R : RandomLib} {T : TorchLib} {D : Delegates}.

Lemma add_features_loop_app (l1 l2 : list (nat * string)) :
  ∀ (graph : Graph) (s : State),
    add_features_loop graph (l1 ++ l2) s
    = (add_features_loop graph l1 ≫= λ g, add_features_loop g l2) s.
Proof.
  induction l1 as [|[i feature] l1 IH]; intros graph s; [done|]. simpl.
  destruct (decide (feature ≠ "x")).
  - unfold mbind, StateErr_bind, bind, lift.
    destruct (subscript_x graph) as [x|]; [|done].
    destruct (select_column x i) as [col|]; [|done]. apply IH.
  - unfold mbind, StateErr_bind, bind.
    destruct (warning_once WReservedX s) as [[[]|e] s1]; [apply IH | done].
Qed.

(** The loop writes no field but those of the features it is given, and
    never the field [x]. *)
Lemma add_features_loop_other (items : list (nat * string)) (f : string) :
  (∀ i, (i, f) ∈ items → f = "x") →
  ∀ (graph g' : Graph) (s s' : State),
    add_features_loop graph items s = (Ok g', s') → g' !! f = graph !! f.
Proof.
  induction items as [|[i feature] items IH]; intros Hf graph g' s s'; simpl.
  { by intros [= <- _]. }
  assert (Hrest : ∀ j, (j, f) ∈ items → f = "x").
  { intros j Hj. apply (Hf j). by right. }
  destruct (decide (feature ≠ "x")) as [Hne|_].
  - unfold mbind, StateErr_bind, bind, lift.
    destruct (subscript_x graph) as [x|]; [|done].
    destruct (select_column x i) as [col|]; [|done].
    intros Hrun. rewrite (IH Hrest _ _ _ _ Hrun).
    apply lookup_insert_ne. intros ->. apply Hne, (Hf i). by left.
  - unfold mbind, StateErr_bind, bind.
    destruct (warning_once WReservedX s) as [[[]|e] s1]; [|done].
    by apply IH.
Qed.

(** On a graph whose [x] has a column for every index, the loop returns a
    graph, leaves the heap alone and warns about [x] at most once. *)
Lemma add_features_loop_runs (x : Tensor) (items : list (nat * string)) :
  (∀ i f, (i, f) ∈ items → is_Ok (select_column x i)) →
  ∀ (graph : Graph) (s : State),
    graph !! "x" = Some (FTensor x) →
    ∃ g' w,
      add_features_loop graph items s
      = (Ok g',
         {| self := set_warned w (self s); heap := heap s;
            log := log s
                   ++ if decide ("x" ∈ items.*2
                                 ∧ SiteReservedX ∉ warned (self s))
                      then [EvWarning WReservedX] else [] |}).
Proof.
  induction items as [|[i feature] items IH]; intros Hcols graph s Hx;
    cbn [add_features_loop].
  { exists graph, (warned (self s)). rewrite decide_False.
    - rewrite set_warned_id, app_nil_r. by destruct s.
    - intros [[]%elem_of_nil _]. }
  assert (Hrest : ∀ j f, (j, f) ∈ items → is_Ok (select_column x j)).
  { intros j f Hj. apply (Hcols j f). by right. }
  destruct (decide (feature ≠ "x")) as [Hne|Heq].
  - unfold mbind, StateErr_bind, bind, lift, subscript_x. rewrite Hx.
    specialize (Hcols i feature (list_elem_of_here _ _)).
    destruct (select_column x i) as [col|]; [|done].
    destruct (IH Hrest (<[feature := FTensor (detach col)]> graph) s)
      as (g' & w & ->); [by rewrite lookup_insert_ne|].
    exists g', w. do 2 f_equal. f_equal.
    apply decide_ext. rewrite fmap_cons, elem_of_cons. simpl.
    split; [intros [? ?]; auto | intros [[?|?] ?]; [congruence | done]].
  - assert (feature = "x") as -> by (by destruct (decide (feature = "x"));
                                     [|exfalso; apply Heq]).
    unfold mbind, StateErr_bind, bind, warning_once. simpl.
    destruct (decide (SiteReservedX ∈ warned (self s))) as [Hw|Hw].
    + destruct (IH Hrest graph s Hx) as (g' & w & ->). exists g', w.
      by rewrite !decide_False by (by intros [_ ?]).
    + destruct (IH Hrest graph
                  {| self := set_warned (SiteReservedX :: warned (self s))
                               (self s);
                     heap := heap s;
                     log := log s ++ [EvWarning WReservedX] |} Hx)
        as (g' & w & ->). exists g', w. simpl.
      rewrite decide_False by (intros [_ Hn]; apply Hn; by left).
      rewrite decide_True by (split; [apply list_elem_of_here | done]).
      by rewrite app_nil_r.
Qed.

Lemma enumerate_app {A} (l1 l2 : list A) (k : nat) :
  zip (seq k (length (l1 ++ l2))) (l1 ++ l2)
  = zip (seq k (length l1)) l1
    ++ zip (seq (k + length l1) (length l2)) l2.
Proof.
  revert k. induction l1 as [|a l1 IH]; intros k; simpl.
  - by rewrite Nat.add_0_r.
  - f_equal. rewrite IH. do 3 f_equal. lia.
Qed.

Lemma elem_of_enumerate {A} (l : list A) (k j : nat) (a : A) :
  (j, a) ∈ zip (seq k (length l)) l → (k ≤ j)%nat ∧ l !! (j - k) = Some a.
Proof.
  revert k. induction l as [|b l IH]; intros k; simpl.
  { by intros ?%elem_of_nil. }
  rewrite elem_of_cons. intros [[= -> ->]|Hin].
  - split; [lia|]. by rewrite Nat.sub_diag.
  - apply IH in Hin as [Hk Hl]. split; [lia|].
    by replace (j - k) with (S (j - S k)) by lia.
Qed.

Lemma select_column_is_Ok (x : Tensor) (d : nat) (rows : list (list Scalar))
    (i : nat) :
  t_data x = T2 d rows → Forall (λ r : list Scalar, length r = d) rows →
  (i < d)%nat →
  ∃ entries,
    select_column x i
    = Ok {| t_dtype := t_dtype x; t_data := T1 entries;
            requires_grad := requires_grad x |}
    ∧ length entries = length rows
    ∧ ∀ r row, rows !! r = Some row → entries !! r = row !! i.
Proof.
  intros Hx Hrows Hi. unfold select_column. rewrite Hx.
  assert ((i <? d)%nat = true) as -> by by apply Nat.ltb_lt.
  destruct (mapM (λ r : list Scalar, r !! i) rows) as [entries|] eqn:Hm.
  - exists entries. apply mapM_Some in Hm. split; [done|].
    split; [symmetry; by eapply Forall2_length|].
    intros r row Hr.
    destruct (Forall2_lookup_l _ _ _ _ _ Hm Hr) as (e & -> & He). done.
  - exfalso. apply eq_None_not_Some in Hm. apply Hm, mapM_is_Some.
    eapply Forall_impl; [done|]. simpl. intros row Hrow.
    apply lookup_lt_is_Some. lia.
Qed.

(** C7: [_add_features_individually] never assigns the field [x]: a graph
    it returns holds under [x] what the graph held before.  When [x] is a
    tensor of shape [[rows, d]] with a column for every feature name, the
    call returns a graph in which [x] is that tensor, and in which a feature
    name other than [x] holds, as a tensor that is detached, the column of
    [x] at the position of the name (at its last position, should the name
    occur twice); the entry [x] of the name list is passed over, with one
    warning on the first time the instance meets it and none afterwards. *)
Theorem reserved_name_x (graph : Graph) (names : list string) (s : State) :
  (∀ g' s', _add_features_individually graph names s = (Ok g', s') →
            g' !! "x" = graph !! "x")
  ∧ (∀ x d rows,
       graph !! "x" = Some (FTensor x) → t_data x = T2 d rows →
       Forall (λ r : list Scalar, length r = d) rows →
       (length names ≤ d)%nat →
       ∃ g' w,
         _add_features_individually graph names s
         = (Ok g',
            {| self := set_warned w (self s); heap := heap s;
               log := log s
                      ++ if decide ("x" ∈ names
                                    ∧ SiteReservedX ∉ warned (self s))
                         then [EvWarning WReservedX] else [] |})
         ∧ g' !! "x" = Some (FTensor x)
         ∧ t_shape x = [length rows; d]
         ∧ ∀ i name,
             names !! i = Some name → name ≠ "x" →
             (∀ j, (i < j)%nat → names !! j ≠ Some name) →
             ∃ entries,
               g' !! name
               = Some (FTensor {| t_dtype := t_dtype x; t_data := T1 entries;
                                  requires_grad := false |})
               ∧ length entries = length rows
               ∧ ∀ r row, rows !! r = Some row → entries !! r = row !! i).
Proof.
  assert (Hx_kept : ∀ g' s',
            _add_features_individually graph names s = (Ok g', s') →
            g' !! "x" = graph !! "x").
  { intros g' s' Hrun. unfold _add_features_individually in Hrun.
    rewrite (add_features_loop_other _ "x" (λ _ _, eq_refl) _ _ _ _ Hrun).
    by apply lookup_insert_ne. }
  split; [done|]. intros x d rows Hx Hdata Hrows Hlen.
  assert (Hcol : ∀ i, (i < length names)%nat →
                      is_Ok (select_column x i)).
  { intros i Hi. destruct (select_column_is_Ok x d rows i) as (e & -> & _);
      [done.. | lia | done]. }
  destruct (add_features_loop_runs x (enumerate names)) with
    (graph := <["features" := FNames names]> graph) (s := s)
    as (g' & w & Hrun).
  { intros i f [_ Hf]%elem_of_enumerate. apply Hcol.
    apply lookup_lt_Some in Hf. lia. }
  { by rewrite lookup_insert_ne. }
  exists g', w. unfold _add_features_individually at 1.
  split.
  { rewrite Hrun. do 3 f_equal. apply decide_ext.
    unfold enumerate. by rewrite snd_zip by (by rewrite length_seq). }
  split; [by rewrite (Hx_kept _ _ Hrun)|].
  split; [unfold t_shape; by rewrite Hdata|].
  intros i name Hi Hname Hlast.
  destruct (select_column_is_Ok x d rows i) as (entries & Hsel & He1 & He2);
    [done.. | apply lookup_lt_Some in Hi; lia |].
  exists entries. split; [|done].
  assert (Hsplit : enumerate names
                   = zip (seq 0 (length (take i names))) (take i names)
                     ++ (i, name)
                        :: zip (seq (S i) (length (drop (S i) names)))
                             (drop (S i) names)).
  { unfold enumerate.
    rewrite <- (take_drop_middle names i name Hi) at 1 2.
    rewrite enumerate_app. simpl.
    rewrite length_take_le by (apply lookup_lt_Some in Hi; lia).
    repeat f_equal; lia. }
  rewrite Hsplit, add_features_loop_app in Hrun.
  unfold mbind at 1, StateErr_bind, bind at 1 in Hrun.
  destruct (add_features_loop _ (zip _ (take i names)) s)
    as [[g1|] s1] eqn:Hpre; [|done].
  cbn [add_features_loop] in Hrun. rewrite decide_True in Hrun by done.
  unfold mbind, StateErr_bind, bind, lift, subscript_x in Hrun.
  rewrite (add_features_loop_other _ "x" (λ _ _, eq_refl) _ _ _ _ Hpre)
    in Hrun.
  rewrite lookup_insert_ne, Hx, Hsel in Hrun by done.
  rewrite (add_features_loop_other _ name) with (2 := Hrun).
  - by rewrite lookup_insert_eq.
  - intros j [Hj Hin]%elem_of_enumerate. exfalso.
    rewrite lookup_drop in Hin. apply (Hlast (S i + (j - S i))); [lia|done].
Qed.
End Features.

(** ** What a returned graph looks like *)

Section Returned.
Context {R : RandomLib} {T : TorchLib} {D : Delegates}.

Lemma bind_Ok_inv {A B} (m : M A) (k : A → M B) s b s' :
  (m ≫= k) s = (Ok b, s') →
  ∃ a s1, m s = (Ok a, s1) ∧ k a s1 = (Ok b, s').
Proof.
  unfold mbind, StateErr_bind, bind.
  destruct (m s) as [[a|e] s1]; [by eexists _, _ | done].
Qed.

Lemma select_column_T1 (x col : Tensor) (i : nat) :
  select_column x i = Ok col → ∃ v, t_data col = T1 v.
Proof.
  unfold select_column. destruct (t_data x) as [| |d rows]; try done.
  destruct (i <? d)%nat; [|done].
  destruct (mapM _ rows) as [v|]; [|done]. intros [= <-]. by eexists.
Qed.

(** Whatever the graph held, a feature the loop has gone through holds a
    detached tensor of rank one afterwards. *)
Lemma add_features_loop_fields (items : list (nat * string)) :
  ∀ (graph g' : Graph) (s s' : State),
    add_features_loop graph items s = (Ok g', s') →
    ∀ f, f ∈ items.*2 → f ≠ "x" →
         ∃ col v, g' !! f = Some (FTensor col) ∧ t_data col = T1 v
                  ∧ requires_grad col = false.
Proof.
  induction items as [|[i feature] items IH]; intros graph g' s s' Hrun f Hf Hx.
  { by apply elem_of_nil in Hf. }
  cbn [add_features_loop] in Hrun. rewrite fmap_cons in Hf. simpl in Hf.
  destruct (decide (feature ≠ "x")) as [Hne|Heq].
  - apply bind_Ok_inv in Hrun as (x & s1 & Hget & Hrun).
    apply bind_Ok_inv in Hrun as (col & s2 & Hsel & Hrun).
    destruct (decide (f ∈ items.*2)) as [Hin|Hnotin]; [by eapply IH|].
    apply elem_of_cons in Hf as [->|?]; [|done].
    rewrite (add_features_loop_other items feature) with (2 := Hrun).
    + unfold lift in Hsel. injection Hsel as Hsel _.
      destruct (select_column_T1 _ _ _ Hsel) as [v Hv].
      exists (detach col), v. by rewrite lookup_insert_eq.
    + intros j Hj. exfalso. apply Hnotin.
      apply list_elem_of_fmap. by exists (j, feature).
  - apply bind_Ok_inv in Hrun as ([] & s1 & _ & Hrun).
    apply elem_of_cons in Hf as [->|Hin].
    + exfalso. apply Heq. done.
    + by eapply IH.
Qed.

End Returned.

Ltac peel H :=
  let a := fresh "a" in
  let s1 := fresh "s" in
  let Hm := fresh "Hm" in
  apply bind_Ok_inv in H as (a & s1 & Hm & H);
  lazymatch type of a with
  | (_ * _)%type => destruct a
  | _ => idtac
  end;
  cbv beta iota zeta in H.

Ltac settle :=
  repeat match goal with
         | u : unit |- _ => destruct u
         | H : attr _ _ = (Ok _, _) |- _ =>
             unfold attr in H; injection H as <- <-
         | H : lift _ _ = (Ok _, _) |- _ =>
             unfold lift in H; injection H as H <-
         | H : emit _ _ = (Ok _, _) |- _ =>
             unfold emit in H; injection H as <-
         | H : mret _ _ = (Ok _, _) |- _ =>
             unfold mret, StateErr_ret, ret in H; injection H as <- <-
         end.

(** From a run of [forward] that returned: the state in which the
    perturbation left off and the intermediate values, one hypothesis per
    statement. *)
Ltac forward_inv Hrun s l names :=
  unfold forward, assemble in Hrun; repeat peel Hrun;
  lazymatch goal with
  | Hv : _validate_input _ _ s = (_, ?s0) |- _ =>
      let Hs0 := fresh "Hs" in
      pose proof (_validate_input_state s l names) as Hs0;
      rewrite Hv in Hs0; simpl in Hs0; subst s0
  end;
  lazymatch goal with
  | Hp : _perturb_input _ s = (_, ?s1) |- _ =>
      let g1 := fresh "g" in
      let w1 := fresh "w" in
      let Hs1 := fresh "Hs" in
      let self1 := fresh "self" in
      destruct (stable__perturb_input l s) as (g1 & w1 & Hs1);
      rewrite Hp in Hs1; destruct s1 as [self1 ? ?];
      simpl in Hs1; subst self1
  end;
  lazymatch goal with
  | Hd : deref _ _ = _ |- _ =>
      unfold deref in Hd;
      destruct (heap _ !! _); [injection Hd as <- <- | done]
  end;
  settle; simpl in *.

(** The same, keeping track of the table: [a] is the table the caller
    passed in, and what the statements after the perturbation read is
    [perturbed_table]. *)
Ltac forward_inv_table Hrun s l names a Hl :=
  unfold forward, assemble in Hrun; repeat peel Hrun;
  lazymatch goal with
  | Hv : _validate_input _ _ s = (_, ?s0) |- _ =>
      let Hs0 := fresh "Hs" in
      pose proof (_validate_input_state s l names) as Hs0;
      rewrite Hv in Hs0; simpl in Hs0; subst s0;
      destruct (heap s !! l) as [a|] eqn:Hl;
      [|unfold _validate_input, mbind, StateErr_bind, bind, deref in Hv;
        rewrite Hl in Hv; discriminate]
  end;
  lazymatch goal with
  | Hp : _perturb_input _ s = (Ok ?l0, ?s1) |- _ =>
      let r := fresh "r" in
      let w1 := fresh "w" in
      let evs := fresh "evs" in
      let Hp' := fresh "Hp" in
      let Href := fresh "Href" in
      destruct (_perturb_input_effect s l a Hl)
        as (r & w1 & evs & Hp' & Href & _);
      rewrite Hp in Hp'; injection Hp' as <- ->;
      specialize (Href l0 eq_refl); subst l0
  end;
  lazymatch goal with
  | Hd : deref _ _ = _ |- _ =>
      unfold deref in Hd; simpl in Hd; rewrite lookup_insert_eq in Hd;
      injection Hd as <- <-
  end;
  settle; simpl in *.

Section ReturnedGraph.
Context {R : RandomLib} {T : TorchLib} {D : Delegates}.

(** X1: a graph that [forward] returns carries the name of the class of the
    instance under [graph_definition], whatever the node definition, the
    truth dictionaries, the custom labels or the feature names wrote under
    that key. *)
Theorem forward_stamps_the_graph (s s' : State) (g : Graph) l names truth
    fns column weight default path :
  forward l names truth fns column weight default path s = (Ok g, s') →
  g !! "graph_definition" = Some (FStr (class_name (self s))).
Proof.
  intros Hrun.
  destruct (forward_config s l names truth fns column weight default path)
    as (g' & w & Hself).
  rewrite Hrun in Hself. simpl in Hself.
  unfold forward, assemble in Hrun. repeat peel Hrun.
  lazymatch goal with
  | Hname : attr class_name _ = _ |- _ =>
      unfold attr in Hname; injection Hname as <- <-
  end.
  unfold mret, StateErr_ret, ret in Hrun. injection Hrun as <- <-.
  rewrite lookup_insert_eq. by rewrite Hself.
Qed.

(** X2: in a graph that [forward] returns, every name the node definition
    reported, other than [x] and [graph_definition], is a field that holds a
    detached tensor of rank one: the column written last wins over a loss
    weight, a truth label or a custom label of the same name.  The list of
    names itself is under [features], unless one of the names is
    [features]. *)
Theorem forward_feature_fields (s s' : State) (g : Graph) l names truth fns
    column weight default path :
  forward l names truth fns column weight default path s = (Ok g, s') →
  ∃ t_in t graph0 node_feature_names,
    detector_call (_detector (self s)) t_in names = Ok t
    ∧ node_call (_node_definition (self s)) t
      = Ok (graph0, node_feature_names)
    ∧ ("features" ∉ node_feature_names →
       g !! "features" = Some (FNames node_feature_names))
    ∧ ∀ f, f ∈ node_feature_names → f ≠ "x" → f ≠ "graph_definition" →
           ∃ col v, g !! f = Some (FTensor col) ∧ t_data col = T1 v
                    ∧ requires_grad col = false.
Proof.
  intros Hrun. forward_inv Hrun s l names.
  lazymatch goal with
  | Hf : _add_features_individually ?g4 ?nfn _ = (Ok ?g5, _),
    Hdet : detector_call _ ?tin _ = Ok ?t,
    Hnode : node_call _ _ = Ok (?g0, _) |- _ =>
      exists tin, t, g0, nfn; unfold _add_features_individually in Hf;
      split; [exact Hdet|]; split; [exact Hnode|]
  end.
  split.
  - intros Hno. rewrite lookup_insert_ne by done.
    lazymatch goal with
    | Hf : add_features_loop _ _ _ = _ |- _ =>
        rewrite (add_features_loop_other _ "features") with (2 := Hf)
    end.
    + by rewrite lookup_insert_eq.
    + intros j [_ Hj]%elem_of_enumerate. exfalso.
      apply Hno, list_elem_of_lookup. eauto.
  - intros f Hf Hx Hstamp. rewrite lookup_insert_ne by done.
    lazymatch goal with
    | Hl : add_features_loop _ _ _ = _ |- _ =>
        apply (add_features_loop_fields _ _ _ _ _ Hl); [|done]
    end.
    unfold enumerate. by rewrite snd_zip by (by rewrite length_seq).
Qed.
End ReturnedGraph.

(** ** Custom labels *)

Section CustomLabels.
Context {R : RandomLib} {T : TorchLib} {D : Delegates}.

Lemma setitem_other (key k : string) (v : FieldVal) (graph : Graph) :
  k ≠ key → setitem key v graph !! k = graph !! k.
Proof.
  intros Hne. unfold setitem.
  destruct v as [| | |[]];
    first [by apply lookup_insert_ne | by apply lookup_delete_ne].
Qed.

Lemma setitem_here (key : string) (v : FieldVal) (graph : Graph) :
  setitem key v graph !! key
  = match v with FPy PyNone => None | _ => Some v end.
Proof.
  unfold setitem.
  destruct v as [| | |[]];
    first [by apply lookup_insert_eq | by apply lookup_delete_eq].
Qed.

Lemma _add_custom_labels_app
    (l1 l2 : list (string * (Graph → result FieldVal))) :
  ∀ (graph : Graph) (s : State),
    _add_custom_labels graph (l1 ++ l2) s
    = (_add_custom_labels graph l1 ≫= λ g, _add_custom_labels g l2) s.
Proof.
  induction l1 as [|[key fn] l1 IH]; intros graph s; [done|]. simpl.
  unfold mbind, StateErr_bind, bind, emit, lift.
  destruct (fn graph) as [v|]; [apply IH | done].
Qed.

Lemma _add_custom_labels_other
    (fns : list (string * (Graph → result FieldVal))) (k : string) :
  k ∉ fns.*1 →
  ∀ (graph g' : Graph) (s s' : State),
    _add_custom_labels graph fns s = (Ok g', s') → g' !! k = graph !! k.
Proof.
  induction fns as [|[key fn] fns IH]; intros Hk graph g' s s'; simpl.
  { by intros [= <- _]. }
  rewrite fmap_cons in Hk. apply not_elem_of_cons in Hk as [Hne Hk].
  unfold mbind, StateErr_bind, bind, emit, lift.
  destruct (fn graph) as [v|]; [|done].
  intros Hrun. rewrite (IH Hk _ _ _ _ Hrun). by apply setitem_other.
Qed.

Lemma _add_custom_labels_state
    (fns : list (string * (Graph → result FieldVal))) :
  ∀ (graph : Graph) (s : State),
    self (_add_custom_labels graph fns s).2 = self s
    ∧ heap (_add_custom_labels graph fns s).2 = heap s.
Proof.
  induction fns as [|[key fn] fns IH]; intros graph s; [done|]. simpl.
  unfold mbind, StateErr_bind, bind, emit, lift.
  destruct (fn graph) as [v|]; [|done].
  destruct (IH (setitem key v graph)
              {| self := self s; heap := heap s;
                 log := log s ++ [EvCustomLabel key graph] |}) as [H1 H2].
  by rewrite H1, H2.
Qed.

(** X5: the custom label functions are applied in the order of the
    dictionary, each to the graph that carries the labels of those before
    it: once the functions before [fn] have left the graph [g1] and [fn]
    returns [v] on it, the rest of the stage is the stage of the later
    functions on [g1] with [v] assigned to the key.  An exception raised by
    a function, [TypeError] included, ends the stage with that exception
    right after the call, and the functions that follow are not called.  A
    value other than [None] is stored under its key; for [None] the graph
    holds no field under the key afterwards, even if it held one before; a
    key without a function keeps its field; the instance and the arrays are
    not touched. *)
Theorem custom_labels_in_order (graph g1 : Graph)
    (pre post : list (string * (Graph → result FieldVal)))
    (key : string) (fn : Graph → result FieldVal) (s s1 : State) :
  _add_custom_labels graph pre s = (Ok g1, s1) →
  (∀ e, fn g1 = Raise e →
        _add_custom_labels graph (pre ++ (key, fn) :: post) s
        = (Raise e, {| self := self s; heap := heap s;
                       log := log s1 ++ [EvCustomLabel key g1] |}))
  ∧ (∀ v, fn g1 = Ok v →
        _add_custom_labels graph (pre ++ (key, fn) :: post) s
        = _add_custom_labels (setitem key v g1) post
            {| self := self s; heap := heap s;
               log := log s1 ++ [EvCustomLabel key g1] |})
  ∧ (∀ v g' s', fn g1 = Ok v → key ∉ post.*1 →
        _add_custom_labels graph (pre ++ (key, fn) :: post) s = (Ok g', s') →
        g' !! key = match v with FPy PyNone => None | _ => Some v end)
  ∧ (∀ k g' s', k ∉ (pre ++ (key, fn) :: post).*1 →
        _add_custom_labels graph (pre ++ (key, fn) :: post) s = (Ok g', s') →
        g' !! k = graph !! k).
Proof.
  intros Hpre.
  destruct (_add_custom_labels_state pre graph s) as [Hself Hheap].
  rewrite Hpre in Hself, Hheap. simpl in Hself, Hheap.
  split; [|split; [|split]].
  - intros e He. rewrite _add_custom_labels_app, (bind_Ok _ _ _ _ _ Hpre).
    simpl. unfold mbind, StateErr_bind, bind, emit, lift. rewrite He.
    by rewrite Hself, Hheap.
  - intros v Hv. rewrite _add_custom_labels_app, (bind_Ok _ _ _ _ _ Hpre).
    simpl. unfold mbind, StateErr_bind, bind, emit, lift. rewrite Hv.
    by rewrite Hself, Hheap.
  - intros v g' s' Hv Hkey.
    rewrite _add_custom_labels_app, (bind_Ok _ _ _ _ _ Hpre). simpl.
    unfold mbind, StateErr_bind, bind, emit, lift. rewrite Hv.
    intros Hrun. rewrite (_add_custom_labels_other post key Hkey _ _ _ _ Hrun).
    apply setitem_here.
  - intros k g' s' Hk. by apply _add_custom_labels_other.
Qed.
End CustomLabels.


(** ** Where the fields of a returned graph come from *)

Section Provenance.
Context {R : RandomLib} {T : TorchLib} {D : Delegates}.

Lemma add_truth_dict_other (items : list (string * PyValue)) (k : string) :
  k ∉ items.*1 →
  ∀ (graph g' : Graph) (s s' : State),
    add_truth_dict graph items s = (Ok g', s') → g' !! k = graph !! k.
Proof.
  induction items as [|[key value] items IH]; intros Hk graph g' s s'; simpl.
  { by intros [= <- _]. }
  rewrite fmap_cons in Hk. apply not_elem_of_cons in Hk as [Hne Hk].
  intros (g1 & s1 & Hitem & Hrun)%bind_Ok_inv.
  rewrite (IH Hk _ _ _ _ Hrun). unfold add_truth_item in Hitem.
  destruct (torch_tensor value) as [t|[]]; try done.
  - injection Hitem as <- _. by apply lookup_insert_ne.
  - apply bind_Ok_inv in Hitem as (? & ? & _ & Hret). by injection Hret as <- _.
Qed.

Lemma _add_truth_other (dicts : list (list (string * PyValue))) (k : string)
    (graph g' : Graph) (s s' : State) :
  k ∉ (concat dicts).*1 →
  _add_truth graph dicts s = (Ok g', s') → g' !! k = graph !! k.
Proof.
  intros Hk. rewrite _add_truth_concat. by apply add_truth_dict_other.
Qed.

Lemma _add_loss_weights_other (graph g' : Graph) column weight default
    (s s' : State) (k : string) :
  (∀ c w, column = Some c → weight = Some w → k ≠ c) →
  _add_loss_weights graph column weight default s = (Ok g', s') →
  g' !! k = graph !! k.
Proof.
  intros Hk. unfold _add_loss_weights.
  destruct weight as [w|]; [|by intros [= <- _]].
  destruct column as [c|]; [|by intros [= <- _]].
  specialize (Hk c w eq_refl eq_refl).
  destruct (PrimFloat.ltb w 0).
  - destruct default; [|done].
    intros (v & s1 & _ & Hrun)%bind_Ok_inv.
    apply bind_Ok_inv in Hrun as (v' & s2 & _ & Hrun).
    apply bind_Ok_inv in Hrun as (dt & s3 & _ & Hrun).
    injection Hrun as <- _. by apply lookup_insert_ne.
  - intros (dt & s1 & _ & Hrun)%bind_Ok_inv.
    injection Hrun as <- _. by apply lookup_insert_ne.
Qed.

(** The stages that follow the loss weight write under the keys of the
    truth dictionaries, the keys of the custom labels, [features] and the
    feature names other than [x]. *)
Lemma late_stages_keep
    (truth : option (list (list (string * PyValue))))
    (fns : option (list (string * (Graph → result FieldVal))))
    (nfn : list string) (g2 g3 g4 g5 : Graph) (s2 s3 s4 s5 : State)
    (k : string) :
  match truth with
  | Some truth_dicts => _add_truth g2 truth_dicts
  | None => mret g2
  end s2 = (Ok g3, s3) →
  match fns with
  | Some fns => _add_custom_labels g3 fns
  | None => mret g3
  end s3 = (Ok g4, s4) →
  _add_features_individually g4 nfn s4 = (Ok g5, s5) →
  (∀ td, truth = Some td → k ∉ (concat td).*1) →
  (∀ fs, fns = Some fs → k ∉ fs.*1) →
  k ≠ "features" → (k ∈ nfn → k = "x") →
  g5 !! k = g2 !! k.
Proof.
  intros Htruth Hfns Hfeat Hk1 Hk2 Hk3 Hk4.
  unfold _add_features_individually in Hfeat.
  rewrite (add_features_loop_other _ k) with (2 := Hfeat).
  2:{ intros j [_ Hj]%elem_of_enumerate. apply Hk4, list_elem_of_lookup.
      eauto. }
  rewrite lookup_insert_ne by done.
  assert (g4 !! k = g3 !! k) as ->.
  { destruct fns as [fs|]; [|by injection Hfns as <- _].
    eapply _add_custom_labels_other; [|done]. by apply Hk2. }
  destruct truth as [td|]; [|by injection Htruth as <- _].
  eapply _add_truth_other; [|done]. by apply Hk1.
Qed.

(** X3: when [forward] returns, the detector was given the caller's table
    as the perturbation left it, converted to the configured dtype, and a
    field that no later stage writes is the one the graph had after the edge
    definition (or, without one, after [n_pulses] was set): that graph is
    the node definition's, with [x] converted to the configured dtype and
    [n_pulses] holding, as [int32], the length of the tensor the detector
    returned.  The later stages write under [dataset_path] (with a data
    path), the loss weight column (with a weight), the keys of the truth
    dictionaries and of the custom labels, [features], the feature names
    other than [x], and [graph_definition]. *)
Theorem forward_early_fields (s s' : State) (g : Graph) (k : string) l names
    truth fns column weight default path :
  forward l names truth fns column weight default path s = (Ok g, s') →
  k ≠ "graph_definition" → k ≠ "features" →
  (path ≠ None → k ≠ "dataset_path") →
  (∀ c w, column = Some c → weight = Some w → k ≠ c) →
  (∀ td, truth = Some td → k ∉ (concat td).*1) →
  (∀ fs, fns = Some fs → k ∉ fs.*1) →
  ∃ a t graph0 node_feature_names x n base,
    heap s !! l = Some a
    ∧ detector_call (_detector (self s))
        (tensor_of_ndarray (dtype (self s)) (perturbed_table (self s) a).1)
        names
      = Ok t
    ∧ node_call (_node_definition (self s)) t
      = Ok (graph0, node_feature_names)
    ∧ get_x graph0 = Ok x
    ∧ tensor_len t = Ok n
    ∧ match _edge_definition (self s) with
      | Some ed =>
          edge_call ed
            (<["n_pulses" :=
                 FTensor (scalar_tensor Int32 (SInt (Z.of_nat n)))]>
               (<["x" := FTensor (tensor_type (dtype (self s)) x)]> graph0))
          = Ok base
      | None =>
          base
          = <["n_pulses" := FTensor (scalar_tensor Int32 (SInt (Z.of_nat n)))]>
              (<["x" := FTensor (tensor_type (dtype (self s)) x)]> graph0)
      end
    ∧ ((k ∈ node_feature_names → k = "x") → g !! k = base !! k).
Proof.
  intros Hrun Hstamp Hfeatures Hpath Hcol Htruth Hfns.
  forward_inv_table Hrun s l names table Hl.
  lazymatch goal with
  | Hdet : detector_call _ _ _ = Ok ?t,
    Hnode : node_call _ _ = Ok (?g0, ?nfn),
    Hx : get_x _ = Ok ?x, Hn : tensor_len _ = Ok ?n,
    He : match _edge_definition _ with _ => _ end _ = (Ok ?base, _) |- _ =>
      exists table, t, g0, nfn, x, n, base;
      split; [reflexivity|]; split; [exact Hdet|]; split; [exact Hnode|];
      split; [exact Hx|]; split; [exact Hn|]; split;
      [destruct (_edge_definition (self s));
       [peel He; settle; exact He
       |apply bind_Ok_inv in He as ([] & ? & _ & He); by injection He as <- _]
      |]
  end.
  intros Hnames. rewrite lookup_insert_ne by done.
  lazymatch goal with
  | H1 : match truth with _ => _ end _ = _,
    H2 : match fns with _ => _ end _ = _,
    H3 : _add_features_individually _ _ _ = _,
    H0 : _add_loss_weights _ _ _ _ _ = _ |- _ =>
      rewrite (late_stages_keep _ _ _ _ _ _ _ _ _ _ _ k H1 H2 H3)
        by done;
      rewrite (_add_loss_weights_other _ _ _ _ _ _ _ k Hcol H0)
  end.
  destruct path as [p|]; [|done].
  apply lookup_insert_ne. intros <-. by apply Hpath.
Qed.

(** X4: when [forward] returns and was given a weight that is not below
    zero, the returned graph holds that weight, as a tensor of shape
    [[1, 1]] in the configured dtype, under the column name, provided the
    name is not a key of a truth dictionary or of a custom label, not
    [features] or [graph_definition], and not a feature name other than
    [x]; the feature names are those the node definition of the instance
    reported on what the detector made of the caller's table, as the
    perturbation left it. *)
Theorem forward_returns_the_weight (s s' : State) (g : Graph) (c : string)
    (w : float) l names truth fns default path :
  forward l names truth fns (Some c) (Some w) default path s = (Ok g, s') →
  PrimFloat.ltb w 0%float = false →
  c ≠ "graph_definition" → c ≠ "features" →
  (∀ td, truth = Some td → c ∉ (concat td).*1) →
  (∀ fs, fns = Some fs → c ∉ fs.*1) →
  ∃ a t graph0 node_feature_names,
    heap s !! l = Some a
    ∧ detector_call (_detector (self s))
        (tensor_of_ndarray (dtype (self s)) (perturbed_table (self s) a).1)
        names
      = Ok t
    ∧ node_call (_node_definition (self s)) t
      = Ok (graph0, node_feature_names)
    ∧ ((c ∈ node_feature_names → c = "x") →
       g !! c
       = Some (FTensor {| t_dtype := dtype (self s);
                          t_data := T2 1 [[cast (dtype (self s)) (SFloat w)]];
                          requires_grad := false |})).
Proof.
  intros Hrun Hw Hstamp Hfeatures Htruth Hfns.
  forward_inv_table Hrun s l names table Hl.
  lazymatch goal with
  | Hdet : detector_call _ _ _ = Ok ?t,
    Hnode : node_call _ ?t = Ok (?g0, ?nfn) |- _ =>
      exists table, t, g0, nfn;
      split; [reflexivity|]; split; [exact Hdet|]; split; [exact Hnode|]
  end.
  intros Hnames. rewrite lookup_insert_ne by done.
  lazymatch goal with
  | H1 : match truth with _ => _ end _ = _,
    H2 : match fns with _ => _ end _ = _,
    H3 : _add_features_individually _ _ _ = _ |- _ =>
      rewrite (late_stages_keep _ _ _ _ _ _ _ _ _ _ _ c H1 H2 H3)
        by done
  end.
  lazymatch goal with
  | H0 : (if PrimFloat.ltb w 0 then _ else _) ?s0 = _ |- _ =>
      rewrite Hw in H0;
      apply bind_Ok_inv in H0 as (dt & ? & Hdt & H0);
      unfold attr in Hdt; injection Hdt as <- <-;
      injection H0 as <- _;
      assert (dtype (self s0) = dtype (self s)) as ->
  end.
  - lazymatch goal with
    | He : match _edge_definition _ with _ => _ end ?s9 = (_, ?s0) |- _ =>
        destruct (_edge_definition (self s));
        [peel He; settle; done|];
        apply bind_Ok_inv in He as ([] & s8 & Hwarn & He);
        injection He as _ <-; unfold warning_once in Hwarn;
        case_decide; by injection Hwarn as <-
    end.
  - apply lookup_insert_eq.
Qed.
End Provenance.

(** ** Bounds, edge cases and what a call leaves alone *)

Section Edges.
Context {R : RandomLib} {T : TorchLib} {D : Delegates}.

Lemma select_column_Raise (x : Tensor) (i : nat) (e : PyExn) :
  select_column x i = Raise e → e = IndexError.
Proof.
  unfold select_column. destruct (t_data x) as [| |d rows];
    try by intros [= <-].
  destruct (i <? d)%nat; [|by intros [= <-]].
  destruct (mapM _ rows); [done | by intros [= <-]].
Qed.

Lemma add_features_loop_out_of_range (x : Tensor) (d : nat)
    (rows : list (list Scalar)) (items : list (nat * string)) :
  t_data x = T2 d rows →
  (∃ i f, (i, f) ∈ items ∧ f ≠ "x" ∧ (d ≤ i)%nat) →
  ∀ (graph : Graph) (s : State),
    graph !! "x" = Some (FTensor x) →
    ∃ s', add_features_loop graph items s = (Raise IndexError, s').
Proof.
  intros Hdata. induction items as [|[i0 f0] items IH];
    intros (i & f & Hin & Hf & Hi) graph s Hx.
  { by apply elem_of_nil in Hin. }
  cbn [add_features_loop]. destruct (decide (f0 ≠ "x")) as [Hne|Heq].
  - unfold mbind, StateErr_bind, bind, lift, subscript_x. rewrite Hx.
    destruct (select_column x i0) as [col|e] eqn:Hsel.
    + apply IH; [|by rewrite lookup_insert_ne].
      apply elem_of_cons in Hin as [[= -> ->]|Hin]; [|by eauto].
      exfalso. unfold select_column in Hsel. rewrite Hdata in Hsel.
      assert ((i0 <? d)%nat = false) as Hlt by by apply Nat.ltb_ge.
      by rewrite Hlt in Hsel.
    + apply select_column_Raise in Hsel as ->. by eexists.
  - unfold mbind, StateErr_bind, bind.
    destruct (warning_once WReservedX s) as [[[]|e] s1] eqn:Hw.
    + apply IH; [|done].
      apply elem_of_cons in Hin as [[= -> ->]|Hin]; [|by eauto].
      exfalso. by apply Heq.
    + unfold warning_once in Hw. by case_decide.
Qed.

(** X6: when the node definition reports a feature name, other than [x],
    at a position for which the node tensor has no column,
    [_add_features_individually] raises [IndexError] and returns no graph;
    the arrays are as they were. *)
Theorem features_need_a_column (graph : Graph) (names : list string)
    (s : State) (x : Tensor) (d : nat) (rows : list (list Scalar))
    (i : nat) (f : string) :
  graph !! "x" = Some (FTensor x) → t_data x = T2 d rows →
  names !! i = Some f → f ≠ "x" → (d ≤ i)%nat →
  ∃ s', _add_features_individually graph names s = (Raise IndexError, s')
        ∧ heap s' = heap s.
Proof.
  intros Hx Hdata Hi Hf Hd. unfold _add_features_individually.
  destruct (add_features_loop_out_of_range x d rows (enumerate names) Hdata)
    with (graph := <["features" := FNames names]> graph) (s := s)
    as [s' Hrun].
  - exists i, f. split; [|done]. unfold enumerate.
    apply list_elem_of_lookup. exists i. apply lookup_zip_with_Some.
    exists i, f. split; [done|]. split; [|done].
    apply lookup_seq. split; [done|]. by apply lookup_lt_Some in Hi.
  - by rewrite lookup_insert_ne.
  - exists s'. split; [done|].
    destruct (quiet_add_features_loop (enumerate names)
                (<["features" := FNames names]> graph) s) as (w & evs & Hq).
    rewrite Hrun in Hq. simpl in Hq. by rewrite Hq.
Qed.

(** X7: a seed that is neither an integer nor a generator makes [__init__]
    fail, whatever the other arguments are: with a dtype that
    [self.to(dtype)] accepts it raises [ValueError] (as an unresolvable
    perturbation key, looked at before the seed, does), and with a dtype
    that [self.to(dtype)] rejects the [TypeError] of that statement comes
    first. *)
Theorem invalid_seed_is_rejected detector node_definition edge_definition
    input_feature_names dt perturbation_dict name entropy :
  __init__ detector node_definition edge_definition input_feature_names dt
    perturbation_dict (Some SeedOther) name entropy
  = Raise (if is_floating_point dt then ValueError else TypeError).
Proof.
  unfold __init__, module_to. destruct (is_floating_point dt); [|done]. simpl.
  destruct perturbation_dict as [d|]; [|done]. simpl.
  destruct (comprehension _ (map fst d)) as [cols|e] eqn:Hc; [done|]. simpl.
  apply comprehension_Raise in Hc as (key & _ & Hraise).
  by apply index_Raise in Hraise as [-> _].
Qed.

(** X8: a call of [forward], whether it returns or raises, leaves every
    attribute of the instance as it was, the generator and the registry of
    warnings apart; and without a perturbation dictionary it leaves the
    generator as it was, too. *)
Theorem forward_keeps_the_configuration (s : State) l names truth fns column
    weight default path :
  let g := self s in
  let g' := self (forward l names truth fns column weight default path s).2 in
  _detector g' = _detector g
  ∧ _edge_definition g' = _edge_definition g
  ∧ _node_definition g' = _node_definition g
  ∧ _perturbation_dict g' = _perturbation_dict g
  ∧ _input_feature_names g' = _input_feature_names g
  ∧ dtype g' = dtype g
  ∧ nb_inputs g' = nb_inputs g
  ∧ nb_outputs g' = nb_outputs g
  ∧ _perturbation_cols g' = _perturbation_cols g
  ∧ class_name g' = class_name g
  ∧ (_perturbation_dict g = None → rng g' = rng g).
Proof.
  intros g g'. subst g g'.
  destruct (forward_config s l names truth fns column weight default path)
    as (r & w & Hself).
  rewrite Hself. simpl. repeat split. intros Hd.
  destruct (heap s !! l) as [a|] eqn:Hl.
  - destruct (forward_effect s l a names truth fns column weight default path
                Hl) as (q & v & evs & Hrun).
    rewrite Hrun in Hself. simpl in Hself.
    destruct (validate _ a names); simpl in Hself.
    + apply (f_equal rng) in Hself. simpl in Hself. rewrite <- Hself.
      unfold perturbed_table. by rewrite Hd.
    + apply (f_equal rng) in Hself. done.
  - assert (_validate_input l names s = (Raise DanglingReference, s)) as Hv.
    { unfold _validate_input, mbind, StateErr_bind, bind, deref.
      by rewrite Hl. }
    unfold forward in Hself. rewrite (bind_Raise _ _ _ _ _ Hv) in Hself.
    apply (f_equal rng) in Hself. done.
Qed.
End Edges.

(** ** More on the perturbation *)

Section PerturbationEdges.
Context {R : RandomLib} {T : TorchLib} {D : Delegates}.

(** X9: when [_perturb_input] raises (a standard deviation numpy rejects, a
    column out of range), no array has been written to: the assignment to
    the table is the last thing the stage does. *)
Theorem failed_perturbation_writes_nothing (s s' : State) (l : nat)
    (e : PyExn) :
  _perturb_input l s = (Raise e, s') → heap s' = heap s.
Proof.
  unfold _perturb_input, mbind, StateErr_bind, bind, attr.
  destruct (_perturbation_dict (self s)) as [d|]; [|done].
  assert (∃ w evs, warning_once (WPerturb (map fst d) (map snd d)) s
                   = (Ok tt, {| self := set_warned w (self s); heap := heap s;
                                log := log s ++ evs |})) as (w & evs & ->).
  { unfold warning_once. case_decide; [|by eexists _, _].
    exists (warned (self s)), []. rewrite set_warned_id, app_nil_r.
    by destruct s. }
  unfold deref, lift, put_rng, store. simpl.
  destruct (heap s !! l) as [a|]; [|by intros [= _ <-]]. simpl.
  destruct (_perturbation_cols (self s)) as [cols|]; [|by intros [= _ <-]].
  destruct (take_cols a cols) as [loc|]; [|by intros [= _ <-]].
  destruct (rng_normal _ loc _) as [[p g']|]; [|by intros [= _ <-]].
  destruct (write_cols a cols p) as [a'|]; simpl; [done | by intros [= _ <-]].
Qed.

Lemma take_no_cols (a : ndarray) :
  take_cols a [] = Ok (replicate (length (nd_rows a)) []).
Proof.
  unfold take_cols. cbn [forallb].
  assert (mapM (λ r : list float, mapM (λ c : nat, r !! c) [])
            (nd_rows a)
          = Some (replicate (length (nd_rows a)) [])) as ->; [|done].
  induction (nd_rows a) as [|r rows IH]; [done|].
  simpl in *. by rewrite IH.
Qed.

Lemma normal_no_cols (g : Generator) (n : nat) :
  rng_normal g (replicate n []) [] = Ok (replicate n [], g).
Proof.
  unfold rng_normal. simpl. induction n as [|n IH]; [done|]. simpl.
  by rewrite IH.
Qed.

Lemma write_no_cols (a : ndarray) :
  write_cols a [] (replicate (length (nd_rows a)) []) = Ok a.
Proof.
  unfold write_cols. simpl. rewrite length_replicate, Nat.eqb_refl. simpl.
  assert (forallb (λ v : list float, length v =? 0)%nat
            (replicate (length (nd_rows a)) []) = true) as ->.
  { induction (length (nd_rows a)) as [|n IH]; [done|]. simpl. apply IH. }
  destruct a as [d rows]. simpl. f_equal. f_equal.
  induction rows as [|r rows IH]; [done|]. simpl. by rewrite IH.
Qed.

(** X10: an empty perturbation dictionary is a dictionary: the stage takes
    the perturbing branch and warns, yet it draws no sample and returns the
    reference with the table and the generator as they were. *)
Theorem empty_perturbation_dict (s : State) (l : nat) (a : ndarray) :
  heap s !! l = Some a →
  _perturbation_dict (self s) = Some [] → resolved (self s) →
  ∃ w, _perturb_input l s
       = (Ok l, {| self := set_warned w (self s); heap := heap s;
                   log := log s
                          ++ if decide (SitePerturb ∈ warned (self s))
                             then [] else [EvWarning (WPerturb [] [])] |}).
Proof.
  intros Hl Hd Hres. unfold resolved in Hres. rewrite Hd in Hres.
  destruct Hres as (cols & Hcols & [= <-]).
  unfold _perturb_input, mbind, StateErr_bind, bind, attr. rewrite Hd.
  unfold warning_once. simpl.
  destruct (decide (SitePerturb ∈ warned (self s))) as [Hw|Hw].
  - unfold deref, lift, put_rng, store. rewrite Hl. simpl. rewrite Hcols.
    rewrite take_no_cols. simpl. rewrite normal_no_cols, write_no_cols.
    exists (warned (self s)). simpl.
    rewrite set_rng_id, set_warned_id, insert_id, app_nil_r by done.
    by destruct s.
  - unfold deref, lift, put_rng, store. simpl. rewrite Hl. simpl.
    rewrite Hcols, take_no_cols. simpl.
    rewrite normal_no_cols, write_no_cols. simpl.
    exists (SitePerturb :: warned (self s)).
    by rewrite insert_id by done.
Qed.

Lemma perturbed_table_ncols (g : GraphDefinition) (a : ndarray) :
  nd_ncols (perturbed_table g a).1 = nd_ncols a.
Proof.
  unfold perturbed_table.
  destruct (_perturbation_dict g) as [d|]; [|done].
  destruct (_perturbation_cols g) as [cols|]; [|done].
  destruct (take_cols a cols) as [loc|]; [|done].
  destruct (rng_normal _ _ _) as [[p g']|]; [|done].
  destruct (write_cols a cols p) as [a'|] eqn:Hw; [|done].
  by apply write_cols_Ok in Hw as [? _].
Qed.

(** X11: a table is perturbed in place each time it is passed in: when the
    caller hands the same array to [forward] again, the second call perturbs
    the table the first call left, drawing from the generator where the
    first call stopped. *)
Theorem perturbation_compounds (s : State) (l : nat) (a : ndarray) names
    truth fns column weight default path truth' fns' column' weight'
    default' path' :
  heap s !! l = Some a →
  validate (_input_feature_names (self s)) a names = Ok tt →
  let s1 := (forward l names truth fns column weight default path s).2 in
  let a1 := (perturbed_table (self s) a).1 in
  let g1 := (perturbed_table (self s) a).2 in
  let s2 := (forward l names truth' fns' column' weight' default' path'
               s1).2 in
  heap s1 !! l = Some a1
  ∧ rng (self s1) = g1
  ∧ heap s2 !! l = Some (perturbed_table (set_rng g1 (self s)) a1).1
  ∧ rng (self s2) = (perturbed_table (set_rng g1 (self s)) a1).2.
Proof.
  intros Hl Hv s1 a1 g1 s2.
  destruct (forward_effect s l a names truth fns column weight default path
              Hl) as (r & w & evs & Hrun).
  rewrite Hv in Hrun.
  assert (Hs1 : s1 = {| self := set_warned w (set_rng g1 (self s));
                        heap := <[l := a1]> (heap s);
                        log := log s ++ evs |}).
  { subst s1. by rewrite Hrun. }
  assert (Hl1 : heap s1 !! l = Some a1).
  { rewrite Hs1. simpl. apply lookup_insert_eq. }
  split; [done|]. split; [by rewrite Hs1|].
  destruct (forward_effect s1 l a1 names truth' fns' column' weight' default'
              path' Hl1) as (r' & w' & evs' & Hrun').
  assert (Hv' : validate (_input_feature_names (self s1)) a1 names = Ok tt).
  { apply validate_Ok_eq in Hv as [Hc Hn]. apply validate_Ok_eq.
    rewrite Hs1. simpl. split; [|done]. subst a1.
    by rewrite perturbed_table_ncols. }
  rewrite Hv' in Hrun'. subst s2. rewrite Hrun'. simpl.
  rewrite lookup_insert_eq. by rewrite Hs1.
Qed.

(** X12: [forward] reads and writes one array, the one it is given: every
    other array is as it was when the call returns or raises, and no
    reference is created or dropped. *)
Theorem forward_touches_one_array (s : State) (l : nat) (a : ndarray) names
    truth fns column weight default path :
  heap s !! l = Some a →
  let s' := (forward l names truth fns column weight default path s).2 in
  (∀ l', l' ≠ l → heap s' !! l' = heap s !! l')
  ∧ dom (heap s') = dom (heap s).
Proof.
  intros Hl s'.
  destruct (forward_effect s l a names truth fns column weight default path
              Hl) as (r & w & evs & Hrun).
  subst s'. rewrite Hrun. simpl.
  destruct (validate _ a names); simpl; [|done]. split.
  - intros l' Hne. by apply lookup_insert_ne.
  - by apply dom_insert_lookup_L.
Qed.

(** X13: a key of the perturbation dictionary stands for the first column
    of that name only: when two columns carry the same name, the later one
    keeps its entries even though its name is a key. *)
Theorem repeated_name_is_perturbed_once (s : State) (l : nat) (a : ndarray)
    (c c' : nat) (name : string) :
  heap s !! l = Some a → resolved (self s) →
  _input_feature_names (self s) !! c = Some name →
  _input_feature_names (self s) !! c' = Some name → (c' < c)%nat →
  ∃ a', heap (_perturb_input l s).2 !! l = Some a'
        ∧ column a' c = column a c.
Proof.
  intros Hl Hres Hc Hc' Hlt.
  destruct (_perturb_input_effect s l a Hl) as (r & w & evs & -> & _).
  simpl. eexists. split; [apply lookup_insert_eq|].
  unfold resolved in Hres.
  destruct (_perturbation_dict (self s)) as [d|] eqn:Hd.
  - destruct Hres as (cols & Hcols & Hcomp).
    apply (perturbed_table_other_column _ _ cols); [done|].
    intros (j & Hj)%list_elem_of_lookup.
    apply resolved_columns in Hcomp as (Hlen & Hkeys & _).
    assert (is_Some (map fst d !! j)) as [key Hkey].
    { apply lookup_lt_is_Some. rewrite <- Hlen. by eapply lookup_lt_Some. }
    destruct (Hkeys j key Hkey) as (i & Hi & Hname & Hfirst).
    assert (i = c) as -> by congruence.
    apply (Hfirst c' Hlt). congruence.
  - unfold perturbed_table. by rewrite Hd.
Qed.

Lemma normal_row_entries (scale : list float) :
  ∀ (g g' : Generator) (loc vs : list float),
    normal_row g loc scale = Ok (vs, g') →
    ∀ j old sd, loc !! j = Some old → scale !! j = Some sd →
                ∃ gj, vs !! j = Some (normal_sample gj old sd).1.
Proof.
  induction scale as [|sd0 scale IH]; intros g g' [|l0 loc] vs Hrun;
    simpl in Hrun; try done.
  destruct (normal_sample g l0 sd0) as [v g1] eqn:Hs.
  destruct (normal_row g1 loc scale) as [[vs' g2]|] eqn:Hrest;
    simpl in Hrun; [|done].
  injection Hrun as <- <-. intros [|j] old sd Hold Hsd; simpl in *.
  - injection Hold as <-. injection Hsd as <-. exists g. by rewrite Hs.
  - by eapply IH.
Qed.

Lemma normal_rows_entries (scale : list float) (loc : list (list float)) :
  ∀ (g g' : Generator) (m : list (list float)),
    normal_rows g loc scale = Ok (m, g') →
    ∀ i j row old sd,
      loc !! i = Some row → row !! j = Some old → scale !! j = Some sd →
      ∃ gij vs, m !! i = Some vs
                ∧ vs !! j = Some (normal_sample gij old sd).1.
Proof.
  induction loc as [|r loc IH]; intros g g' m Hrun; simpl in Hrun.
  { intros i j row old sd Hi. by rewrite lookup_nil in Hi. }
  destruct (normal_row g r scale) as [[vs g1]|] eqn:Hrow;
    simpl in Hrun; [|done].
  destruct (normal_rows g1 loc scale) as [[m' g2]|] eqn:Hrest;
    simpl in Hrun; [|done].
  injection Hrun as <- <-. intros [|i] j row old sd Hi Hold Hsd; simpl in *.
  - injection Hi as <-.
    destruct (normal_row_entries _ _ _ _ _ Hrow j old sd Hold Hsd)
      as [gj Hj]. by exists gj, vs.
  - by eapply IH.
Qed.

(** X14: after a successful perturbation the entry of row [i] in the column
    of the [j]-th key is a normal draw whose mean is the entry that was
    there and whose scale is the standard deviation given for that key. *)
Theorem perturbed_entry_is_a_draw (s : State) (l : nat) (a : ndarray)
    (d : list (string * float)) (cols : list nat) (i j c : nat)
    (row : list float) (old sd : float) (key : string) :
  heap s !! l = Some a → nd_wf a →
  _perturbation_dict (self s) = Some d → resolved (self s) →
  NoDup (map fst d) →
  forallb valid_scale (map snd d) = true →
  nd_ncols a = length (_input_feature_names (self s)) →
  _perturbation_cols (self s) = Some cols →
  d !! j = Some (key, sd) → cols !! j = Some c →
  nd_rows a !! i = Some row → row !! c = Some old →
  ∃ s1 a' row' gij,
    _perturb_input l s = (Ok l, s1)
    ∧ heap s1 !! l = Some a'
    ∧ nd_rows a' !! i = Some row'
    ∧ row' !! c = Some (normal_sample gij old sd).1
    ∧ _input_feature_names (self s) !! c = Some key.
Proof.
  intros Hl Hwf Hd Hres Hnd Hscale Hncols Hcols Hj Hc Hi Hold.
  unfold resolved in Hres. rewrite Hd, Hcols in Hres.
  destruct Hres as (cols' & [= <-] & Hcomp).
  apply resolved_columns in Hcomp as (Hlen & Hkeys & _ & Hbound & Hnodup).
  specialize (Hnodup Hnd).
  assert (Hkey : map fst d !! j = Some key).
  { by rewrite list_lookup_fmap, Hj. }
  assert (Hsd : map snd d !! j = Some sd).
  { by rewrite list_lookup_fmap, Hj. }
  assert (Hbound' : Forall (λ c, c < nd_ncols a) cols).
  { eapply Forall_impl; [done|]. simpl. intros c0 Hc0. congruence. }
  destruct (take_cols_Ok a cols Hwf Hbound') as (loc & Htake & Hloc).
  assert (Hshape : Forall (λ r : list float, length r = length (map snd d))
                     loc).
  { apply Forall_forall. intros taken (i0 & Hi0)%list_elem_of_lookup.
    destruct (Forall2_lookup_r _ _ _ _ _ Hloc Hi0) as (row0 & _ & Hrow0).
    apply Forall2_length in Hrow0. rewrite length_map in *. congruence. }
  destruct (normal_rows_is_Ok _ _ Hshape (rng (self s)))
    as (samples & g' & Hn & Hslen & Hsshape).
  assert (Hnormal : rng_normal (rng (self s)) loc (map snd d)
                    = Ok (samples, g')).
  { unfold rng_normal. by rewrite Hscale. }
  assert (Hrows : length samples = length (nd_rows a)).
  { rewrite Hslen. symmetry. by eapply Forall2_length. }
  destruct (write_cols_is_Ok a cols samples) as [a' Hw]; [done..| |].
  { eapply Forall_impl; [done|]. simpl. intros v Hv.
    rewrite length_map in *. congruence. }
  destruct (_perturb_input_effect s l a Hl) as (r & w & evs & Hp & _ & Hok).
  rewrite (Hok d cols loc samples g' a') in Hp by done.
  assert (Htable : perturbed_table (self s) a = (a', g')).
  { unfold perturbed_table. by rewrite Hd, Hcols, Htake, Hnormal, Hw. }
  rewrite Htable in Hp. simpl in Hp.
  destruct (Forall2_lookup_l _ _ _ _ _ Hloc Hi) as (taken & Htaken & Hrowt).
  destruct (Forall2_lookup_l _ _ _ _ _ Hrowt Hc) as (old' & Hold' & Hrc).
  assert (old' = old) as -> by congruence.
  destruct (normal_rows_entries _ _ _ _ _ Hn i j taken old sd Htaken Hold'
              Hsd) as (gij & vs & Hvs & Hsample).
  destruct (write_cols_Ok _ _ _ _ Hw) as (_ & Hr' & _ & _).
  eexists _, a', (write_row row cols vs), gij.
  split; [exact Hp|]. split; [apply lookup_insert_eq|]. split; [|split].
  - rewrite Hr'. apply lookup_zip_with_Some. by exists row, vs.
  - apply (write_row_written cols Hnodup row vs j c); [done..|].
    by apply lookup_lt_Some in Hold.
  - destruct (Hkeys j key Hkey) as (c0 & Hc0 & Hname & _). congruence.
Qed.
End PerturbationEdges.

(** * The statements at work on the stand-ins *)

#[local] Existing Instances Demo.random Demo.torch Demo.delegates.

Lemma validate_input_iff_witness :
  _validate_input 0 ["a"; "c"; "b"] (Demo.start Demo.plain)
  = (Raise AssertionError, Demo.start Demo.plain).
Proof.
  destruct (validate_input_iff (Demo.start Demo.plain) 0 Demo.table
              ["a"; "c"; "b"] eq_refl) as (_ & _ & _ & Hperm & _).
  apply Hperm; [|discriminate].
  apply Permutation_skip, Permutation_swap.
Defined.

Lemma forward_fails_fast_witness :
  forward 0 ["a"; "b"] None None None None None None
    (Demo.start Demo.perturbing)
  = (Raise AssertionError, Demo.start Demo.perturbing).
Proof.
  apply (forward_fails_fast (Demo.start Demo.perturbing)
           (Demo.start Demo.perturbing) 0 ["a"; "b"]).
  reflexivity.
Defined.

Lemma loss_weight_missing_default_or_absent_witness :
  _add_loss_weights ∅ (Some "w") (Some (-1)%float) None
    (Demo.start Demo.plain)
  = (Raise ValueError, Demo.start Demo.plain)
  ∧ _add_loss_weights ∅ None (Some 2%float) (Some 0.5%float)
      (Demo.start Demo.plain)
    = (Ok ∅, Demo.start Demo.plain).
Proof.
  destruct (loss_weight_missing_default_or_absent ∅ (Demo.start Demo.plain))
    as [Hraise Hskip].
  split.
  - apply (Hraise "w" (-1)%float). reflexivity.
  - apply Hskip. left. reflexivity.
Defined.

Lemma loss_weight_default_is_not_used_witness :
  _add_loss_weights ∅ (Some "w") (Some (-1)%float) (Some 0.5%float)
    (Demo.start Demo.plain)
  = (Raise AttributeError, Demo.start Demo.plain).
Proof.
  apply (loss_weight_default_is_not_used (D := Demo.delegates)
           Demo.names Demo.names None None
           Float32 None (Some (SeedInt 7)) "KNNGraph" 0 Demo.plain
           (Demo.start Demo.plain) ∅ "w" (-1)%float 0.5%float
           0 Demo.names None None None);
    [reflexivity | | reflexivity].
  exists (Demo.tape 7), []. reflexivity.
Defined.

Lemma perturbation_leaves_the_rest_witness :
  _perturb_input 0 (Demo.start Demo.plain) = (Ok 0, Demo.start Demo.plain)
  ∧ ∃ a', heap (_perturb_input 0 (Demo.start Demo.perturbing)).2 !! 0
          = Some a'
          ∧ column a' 0 = column Demo.table 0
          ∧ column a' 2 = column Demo.table 2.
Proof.
  destruct (perturbation_leaves_the_rest (Demo.start Demo.plain) 0 Demo.table
              eq_refl) as [Hplain _].
  destruct (perturbation_leaves_the_rest (Demo.start Demo.perturbing) 0
              Demo.table eq_refl) as [_ Hpert].
  split; [apply Hplain; reflexivity|].
  destruct (Hpert [("b", 0.5%float)] eq_refl
              (ex_intro _ [1] (conj eq_refl eq_refl))
              (_perturb_input 0 (Demo.start Demo.perturbing)).1
              (_perturb_input 0 (Demo.start Demo.perturbing)).2)
    as [(a' & Ha' & Hcolumns) _]; [apply surjective_pairing|].
  exists a'. split; [exact Ha'|].
  split; [apply (Hcolumns 0 "a") | apply (Hcolumns 2 "c")];
    first [reflexivity
          | apply not_elem_of_cons; split;
            [discriminate | apply not_elem_of_nil]].
Defined.

Lemma same_seed_same_perturbation_witness :
  heap (forward 0 Demo.names None None None None None None
          (Demo.start Demo.perturbing)).2 !! 0
  = heap (forward 5 Demo.names None None None None None None
            {| self := Demo.perturbing; heap := {[5 := Demo.table]};
               log := [EvWarning WNoEdges] |}).2 !! 5.
Proof.
  apply (same_seed_same_perturbation (D := Demo.delegates)
           Demo.names Demo.names None None Float32
           (Some [("b", 0.5%float)]) 7 "KNNGraph" 11 23
           Demo.perturbing Demo.perturbing
           (Demo.start Demo.perturbing)
           {| self := Demo.perturbing; heap := {[5 := Demo.table]};
              log := [EvWarning WNoEdges] |}
           0 5 Demo.table Demo.names None None None None None None);
    reflexivity.
Defined.

Lemma perturbation_names_are_resolved_at_construction_witness :
  __init__ (D := Demo.delegates) Demo.names Demo.names None None Float32
    (Some [("energy", 0.5%float)]) (Some (SeedInt 7)) "KNNGraph" 0
  = Raise ValueError
  ∧ (∃ g, __init__ (D := Demo.delegates) Demo.names Demo.names None None
            Float32 (Some [("c", 0.5%float); ("a", 2%float)])
            (Some (SeedInt 7)) "KNNGraph" 0 = Ok g
          ∧ _perturbation_cols g = Some [2; 0])
  ∧ __init__ (D := Demo.delegates) Demo.names Demo.names None None Int32
      (Some [("c", 0.5%float); ("a", 2%float)]) (Some (SeedInt 7))
      "KNNGraph" 0
    = Raise TypeError.
Proof.
  split; [|split].
  - apply (perturbation_names_are_resolved_at_construction
             (D := Demo.delegates) Demo.names Demo.names None None Float32
             [("energy", 0.5%float)] (Some (SeedInt 7)) "KNNGraph" 0)
      with (key := "energy"); [apply list_elem_of_here|].
    intros Hin. vm_compute in Hin.
    repeat (apply elem_of_cons in Hin as [Hin|Hin]; [discriminate|]).
    by apply elem_of_nil in Hin.
  - destruct (perturbation_names_are_resolved_at_construction
                (D := Demo.delegates) Demo.names Demo.names None None Float32
                [("c", 0.5%float); ("a", 2%float)] (Some (SeedInt 7))
                "KNNGraph" 0) as (_ & Hok & _).
    destruct Hok as (g & cols & Hinit & _).
    + reflexivity.
    + repeat constructor.
    + exact I.
    + exists g. split; [exact Hinit|].
      vm_compute in Hinit. injection Hinit as <-. reflexivity.
  - destruct (perturbation_names_are_resolved_at_construction
                (D := Demo.delegates) Demo.names Demo.names None None Int32
                [("c", 0.5%float); ("a", 2%float)] (Some (SeedInt 7))
                "KNNGraph" 0) as (_ & _ & Hdt).
    apply Hdt. reflexivity.
Defined.

Lemma perturbation_is_in_place_witness :
  ∃ a', heap (forward 0 Demo.names None None None None None None
                (Demo.start Demo.perturbing)).2
        = <[0 := a']> {[0 := Demo.table]}
        ∧ nd_ncols a' = 3.
Proof.
  destruct (perturbation_is_in_place (Demo.start Demo.perturbing) 0
              Demo.table [("b", 0.5%float)] Demo.names None None None None
              None None)
    as (cols & loc & samples & g' & a' & _ & _ & _ & _
        & (r & s' & Hrun & Hheap) & Hncols & _).
  - reflexivity.
  - repeat constructor.
  - reflexivity.
  - exists [1]. split; reflexivity.
  - repeat constructor. apply not_elem_of_nil.
  - reflexivity.
  - reflexivity.
  - exists a'. rewrite Hrun. split; [exact Hheap | exact Hncols].
Defined.

Lemma truth_labels_witness :
  ∃ g', _add_truth ∅
          [[("a", PyInt 1); ("run", PyStr "r1")];
           [("a", PyInt 2); ("b", PyInt 3)]] (Demo.start Demo.plain)
        = (Ok g', {| self := Demo.plain; heap := {[0 := Demo.table]};
                     log := [EvDebug "run" "str"] |})
        ∧ g' !! "a" = Some (FTensor {| t_dtype := Int64; t_data := T0 (SInt 2);
                                       requires_grad := false |})
        ∧ g' !! "b" = Some (FTensor {| t_dtype := Int64; t_data := T0 (SInt 3);
                                       requires_grad := false |})
        ∧ g' !! "run" = None.
Proof.
  destruct (truth_labels ∅
              [[("a", PyInt 1); ("run", PyStr "r1")];
               [("a", PyInt 2); ("b", PyInt 3)]] (Demo.start Demo.plain))
    as (Hrun & _ & Hlast & Hnone & _).
  eexists. split; [apply Hrun; repeat constructor|].
  split; [|split].
  - apply (Hlast [("a", PyInt 1); ("run", PyStr "r1")] "a" (PyInt 2)
             [("b", PyInt 3)]); [reflexivity..|].
    intros v t' Hin. apply list_elem_of_singleton in Hin. discriminate.
  - apply (Hlast [("a", PyInt 1); ("run", PyStr "r1"); ("a", PyInt 2)] "b"
             (PyInt 3) []); [reflexivity..|].
    intros v t' Hin. by apply elem_of_nil in Hin.
  - rewrite Hnone; [reflexivity|]. intros v t Hin Hv. vm_compute in Hin.
    repeat (apply elem_of_cons in Hin as [Hin|Hin];
            [injection Hin as -> || discriminate; discriminate|]).
    by apply elem_of_nil in Hin.
Defined.

(** C6, as it is worded, fails on a value that [torch.tensor] rejects with
    an exception other than [TypeError]: a truth dictionary that holds [None]
    ends [_add_truth], and with it the call of [forward], and no graph is
    returned. *)
Lemma truth_value_None_ends_the_call :
  torch_tensor PyNone = Raise RuntimeError
  ∧ _add_truth ∅ [[("energy", PyFloat 1.5); ("pid", PyNone)]]
      (Demo.start Demo.plain)
    = (Raise RuntimeError, Demo.start Demo.plain)
  ∧ (forward 0 Demo.names (Some [[("energy", PyFloat 1.5); ("pid", PyNone)]])
       None None None None None (Demo.start Demo.plain)).1
    = Raise RuntimeError.
Proof. repeat split; reflexivity. Qed.

Lemma reserved_name_x_witness :
  ∃ g', _add_features_individually {["x" := FTensor Demo.node_tensor]}
          ["a"; "x"; "c"] (Demo.start Demo.plain)
        = (Ok g', {| self := set_warned [SiteReservedX] Demo.plain;
                     heap := {[0 := Demo.table]};
                     log := [EvWarning WReservedX] |})
        ∧ g' !! "x" = Some (FTensor Demo.node_tensor)
        ∧ g' !! "c"
          = Some (FTensor {| t_dtype := Float32;
                             t_data := T1 [SFloat 3; SFloat 6];
                             requires_grad := false |}).
Proof.
  destruct (reserved_name_x {["x" := FTensor Demo.node_tensor]}
              ["a"; "x"; "c"] (Demo.start Demo.plain)) as [_ Hrun].
  destruct (Hrun Demo.node_tensor 3
              [[SFloat 1; SFloat 2; SFloat 3];
               [SFloat 4; SFloat 5; SFloat 6]])
    as (g' & w & Hg' & Hx & _ & Hfield).
  - reflexivity.
  - reflexivity.
  - repeat constructor.
  - simpl. lia.
  - exists g'. split; [|split; [exact Hx|]].
    + rewrite Hg'. assert (w = [SiteReservedX]) as ->; [|reflexivity].
      vm_compute in Hg'. by injection Hg' as _ ->.
    + destruct (Hfield 2 "c") as (entries & -> & Hlen & Hentries);
        [reflexivity | discriminate | |].
      * intros [|[|[|j]]] Hj; try lia; discriminate.
      * destruct entries as [|e0 [|e1 [|]]]; try discriminate.
        pose proof (Hentries 0 _ eq_refl) as H0.
        pose proof (Hentries 1 _ eq_refl) as H1.
        simpl in H0, H1. by injection H0 as ->; injection H1 as ->.
Defined.

Lemma forward_stamps_the_graph_witness :
  ∃ g s', forward 0 Demo.names None None None None None None
            (Demo.start Demo.plain) = (Ok g, s')
          ∧ g !! "graph_definition" = Some (FStr "KNNGraph").
Proof.
  destruct (forward 0 Demo.names None None None None None None
              (Demo.start Demo.plain)) as [[g|e] s'] eqn:Hrun.
  - exists g, s'. split; [reflexivity|].
    apply (forward_stamps_the_graph _ _ _ _ _ _ _ _ _ _ _ Hrun).
  - vm_compute in Hrun. discriminate.
Defined.

Lemma forward_feature_fields_witness :
  ∃ g s', forward 0 Demo.names (Some [[("b", PyInt 7)]]) None None None None
            None (Demo.start Demo.plain) = (Ok g, s')
          ∧ ∃ col v, g !! "b" = Some (FTensor col) ∧ t_data col = T1 v
                     ∧ requires_grad col = false.
Proof.
  destruct (forward 0 Demo.names (Some [[("b", PyInt 7)]]) None None None
              None None (Demo.start Demo.plain)) as [[g|e] s'] eqn:Hrun.
  - exists g, s'. split; [reflexivity|].
    destruct (forward_feature_fields _ _ _ _ _ _ _ _ _ _ _ Hrun)
      as (t_in & t & graph0 & nfn & _ & Hnode & _ & Hfields).
    injection Hnode as _ <-. apply Hfields; [|discriminate..].
    apply list_elem_of_further, list_elem_of_here.
  - vm_compute in Hrun. discriminate.
Defined.

Lemma custom_labels_in_order_witness :
  (_add_custom_labels ∅
     [("one", Demo.one); ("two", Demo.two); ("three", Demo.three)]
     (Demo.start Demo.plain)).1
  = Raise TypeError
  ∧ ∃ g' s', _add_custom_labels {["two" := FPy (PyInt 9)]}
               [("two", Demo.two); ("three", Demo.three)]
               (Demo.start Demo.plain)
             = (Ok g', s')
             ∧ g' !! "two" = None.
Proof.
  split.
  - destruct (custom_labels_in_order ∅ {["one" := FPy (PyInt 1)]}
                [("one", Demo.one)] [("three", Demo.three)] "two" Demo.two
                (Demo.start Demo.plain)
                {| self := Demo.plain; heap := {[0 := Demo.table]};
                   log := [EvCustomLabel "one" ∅] |} eq_refl)
      as [Hraise _].
    change [("one", Demo.one); ("two", Demo.two); ("three", Demo.three)]
      with ([("one", Demo.one)] ++ ("two", Demo.two)
            :: [("three", Demo.three)]).
    rewrite (Hraise TypeError); reflexivity.
  - destruct (custom_labels_in_order {["two" := FPy (PyInt 9)]}
                {["two" := FPy (PyInt 9)]} [] [("three", Demo.three)] "two"
                Demo.two (Demo.start Demo.plain) (Demo.start Demo.plain)
                eq_refl)
      as (_ & _ & Hstored & _).
    destruct (_add_custom_labels {["two" := FPy (PyInt 9)]}
                [("two", Demo.two); ("three", Demo.three)]
                (Demo.start Demo.plain)) as [[g'|e] s'] eqn:Hrun.
    + exists g', s'. split; [reflexivity|].
      apply (Hstored (FPy PyNone) g' s'); [reflexivity| |exact Hrun].
      intros Hin. vm_compute in Hin.
      repeat (apply elem_of_cons in Hin as [Hin|Hin]; [discriminate|]).
      by apply elem_of_nil in Hin.
    + vm_compute in Hrun. discriminate.
Defined.

Lemma forward_early_fields_witness :
  ∃ g s', forward 0 Demo.names None None None None None None
            (Demo.start Demo.edged) = (Ok g, s')
          ∧ g !! "n_pulses"
            = Some (FTensor {| t_dtype := Int32; t_data := T0 (SInt 2);
                               requires_grad := false |}).
Proof.
  destruct (forward 0 Demo.names None None None None None None
              (Demo.start Demo.edged)) as [[g|e] s'] eqn:Hrun.
  - exists g, s'. split; [reflexivity|].
    destruct (forward_early_fields _ _ _ "n_pulses" _ _ _ _ _ _ _ _ Hrun)
      as (a & t & graph0 & nfn & x & n & base & Ha & Hdet & Hnode & _ & Hn
          & Hbase & Hk); try discriminate.
    injection Ha as <-. injection Hdet as <-. injection Hn as <-.
    injection Hnode as _ <-. injection Hbase as <-.
    rewrite Hk.
    + rewrite lookup_insert_ne by discriminate. rewrite lookup_insert_eq.
      reflexivity.
    + intros Hin. exfalso. vm_compute in Hin.
      repeat (apply elem_of_cons in Hin as [Hin|Hin]; [discriminate|]).
      by apply elem_of_nil in Hin.
  - vm_compute in Hrun. discriminate.
Defined.

Lemma forward_returns_the_weight_witness :
  ∃ g s', forward 0 Demo.names None None (Some "w") (Some 2%float) None None
            (Demo.start Demo.plain) = (Ok g, s')
          ∧ g !! "w"
            = Some (FTensor {| t_dtype := Float32;
                               t_data := T2 1 [[SFloat 2]];
                               requires_grad := false |}).
Proof.
  destruct (forward 0 Demo.names None None (Some "w") (Some 2%float) None
              None (Demo.start Demo.plain)) as [[g|e] s'] eqn:Hrun.
  - exists g, s'. split; [reflexivity|].
    destruct (forward_returns_the_weight _ _ _ _ _ _ _ _ _ _ _ Hrun)
      as (a & t & graph0 & nfn & Ha & Hdet & Hnode & Hw); try discriminate;
      [reflexivity|].
    injection Ha as <-. injection Hdet as <-. injection Hnode as _ <-.
    apply Hw. intros Hin. exfalso.
    vm_compute in Hin.
    repeat (apply elem_of_cons in Hin as [Hin|Hin]; [discriminate|]).
    by apply elem_of_nil in Hin.
  - vm_compute in Hrun. discriminate.
Defined.

Lemma features_need_a_column_witness :
  ∃ s', _add_features_individually {["x" := FTensor Demo.node_tensor]}
          ["a"; "b"; "c"; "d"] (Demo.start Demo.plain)
        = (Raise IndexError, s')
        ∧ heap s' = {[0 := Demo.table]}.
Proof.
  apply (features_need_a_column {["x" := FTensor Demo.node_tensor]}
           ["a"; "b"; "c"; "d"] (Demo.start Demo.plain) Demo.node_tensor 3
           [[SFloat 1; SFloat 2; SFloat 3]; [SFloat 4; SFloat 5; SFloat 6]]
           3 "d"); first [reflexivity | discriminate | lia].
Defined.

Lemma forward_keeps_the_configuration_witness :
  rng (self (forward 0 Demo.names None None None None None None
               (Demo.start Demo.plain)).2)
  = Demo.tape 7.
Proof.
  apply (forward_keeps_the_configuration (Demo.start Demo.plain) 0 Demo.names
           None None None None None None).
  reflexivity.
Defined.

Lemma failed_perturbation_writes_nothing_witness :
  ∃ s', _perturb_input 0 (Demo.start Demo.negative_scale)
        = (Raise ValueError, s')
        ∧ heap s' = {[0 := Demo.table]}.
Proof.
  destruct (_perturb_input 0 (Demo.start Demo.negative_scale))
    as [[l|e] s'] eqn:Hrun.
  - vm_compute in Hrun. discriminate.
  - exists s'. assert (e = ValueError) as ->.
    { vm_compute in Hrun. by injection Hrun as <- _. }
    split; [reflexivity|].
    apply (failed_perturbation_writes_nothing _ _ _ _ Hrun).
Defined.

Lemma empty_perturbation_dict_witness :
  ∃ w, _perturb_input 0 (Demo.start Demo.empty_dict)
       = (Ok 0, {| self := set_warned w Demo.empty_dict;
                   heap := {[0 := Demo.table]};
                   log := [EvWarning (WPerturb [] [])] |}).
Proof.
  apply (empty_perturbation_dict (Demo.start Demo.empty_dict) 0 Demo.table);
    [reflexivity | reflexivity |].
  exists []. split; reflexivity.
Defined.

Lemma perturbation_compounds_witness :
  heap (forward 0 Demo.names None None None None None None
          (forward 0 Demo.names None None None None None None
             (Demo.start Demo.perturbing)).2).2 !! 0
  = Some {| nd_ncols := 3;
            nd_rows := [[1; 2.25; 3]; [4; 4.5; 6]]%float |}.
Proof.
  destruct (perturbation_compounds (Demo.start Demo.perturbing) 0 Demo.table
              Demo.names None None None None None None
              None None None None None None eq_refl eq_refl)
    as (_ & _ & Hsecond & _).
  rewrite Hsecond. reflexivity.
Defined.

Lemma forward_touches_one_array_witness :
  heap (forward 0 Demo.names None None None None None None
          {| self := Demo.perturbing;
             heap := <[1 := Demo.table]> {[0 := Demo.table]};
             log := [] |}).2 !! 1
  = Some Demo.table.
Proof.
  destruct (forward_touches_one_array
              {| self := Demo.perturbing;
                 heap := <[1 := Demo.table]> {[0 := Demo.table]};
                 log := [] |} 0 Demo.table Demo.names None None None None
              None None) as [Hother _]; [vm_compute; reflexivity|].
  rewrite Hother; [vm_compute; reflexivity | discriminate].
Defined.

Lemma repeated_name_is_perturbed_once_witness :
  ∃ a', heap (_perturb_input 0 (Demo.start Demo.repeated)).2 !! 0 = Some a'
        ∧ column a' 2 = [Some 3; Some 6]%float.
Proof.
  apply (repeated_name_is_perturbed_once (Demo.start Demo.repeated) 0
           Demo.table 2 0 "a"); [reflexivity | | reflexivity.. | lia].
  exists [0]. split; reflexivity.
Defined.

Lemma perturbed_entry_is_a_draw_witness :
  ∃ s1 a' row' gij,
    _perturb_input 0 (Demo.start Demo.perturbing) = (Ok 0, s1)
    ∧ heap s1 !! 0 = Some a'
    ∧ nd_rows a' !! 1 = Some row'
    ∧ row' !! 1 = Some (normal_sample gij 5%float 0.5%float).1
    ∧ Demo.names !! 1 = Some "b".
Proof.
  apply (perturbed_entry_is_a_draw (Demo.start Demo.perturbing) 0 Demo.table
           [("b", 0.5%float)] [1] 1 0 1 [4; 5; 6]%float 5%float 0.5%float
           "b"); try reflexivity.
  - repeat constructor.
  - exists [1]. split; reflexivity.
  - repeat constructor. apply not_elem_of_nil.
Defined.

(** ** Runs on the stand-ins *)

(** A table of two pulses and three features, no perturbation, no edges:
    the graph has the node tensor, the pulse count, one field per feature
    and the stamp; the caller's table is as it was. *)
Example forward_end_to_end :
  let run := forward 0 Demo.names None None None None None None
               (Demo.start Demo.plain) in
  (∃ graph, run.1 = Ok graph
            ∧ rbind (get_x graph) (λ x, Ok (t_shape x)) = Ok [2; 3]
            ∧ graph !! "n_pulses"
              = Some (FTensor {| t_dtype := Int32; t_data := T0 (SInt 2);
                                 requires_grad := false |})
            ∧ graph !! "b"
              = Some (FTensor {| t_dtype := Float32;
                                 t_data := T1 [SFloat 2; SFloat 5];
                                 requires_grad := false |})
            ∧ graph !! "features" = Some (FNames ["a"; "b"; "c"])
            ∧ graph !! "graph_definition" = Some (FStr "KNNGraph"))
  ∧ heap run.2 !! 0 = Some Demo.table
  ∧ EvWarning WNoEdges ∈ log run.2.
Proof.
  split; [eexists; split; [reflexivity|]; repeat split; reflexivity|].
  split; [reflexivity|]. vm_compute. repeat constructor.
Qed.

(** With [b] perturbed, the second column of the caller's table holds the
    samples once the call has returned. *)
Example forward_perturbs_the_callers_table :
  heap (forward 0 Demo.names None None None None None None
          (Demo.start Demo.perturbing)).2 !! 0
  = Some {| nd_ncols := 3;
            nd_rows := [[1; 1.75; 3]; [4; 6.5; 6]]%float |}.
Proof. reflexivity. Qed.

(** A negative weight with a default of 0.5: the call ends in
    [AttributeError] and no field [w] is ever seen. *)
Example forward_with_default_raises :
  (forward 0 Demo.names None None (Some "w") (Some (-1)%float)
     (Some 0.5%float) None (Demo.start Demo.plain)).1
  = Raise AttributeError.
Proof. reflexivity. Qed.

(** A negative weight without a default: the call ends in [ValueError]. *)
Example forward_without_default_raises :
  (forward 0 Demo.names None None (Some "w") (Some (-1)%float) None None
     (Demo.start Demo.plain)).1
  = Raise ValueError.
Proof. reflexivity. Qed.

(** A non-negative weight is stored as a column vector of one entry. *)
Example forward_stores_the_weight :
  rbind (forward 0 Demo.names None None (Some "w") (Some 2%float) None None
           (Demo.start Demo.plain)).1 (λ graph,
  match graph !! "w" with
  | Some (FTensor t) => Ok (t_shape t, t_data t)
  | _ => Raise AttributeError
  end) = Ok ([1; 1], T2 1 [[SFloat 2]]).
Proof. reflexivity. Qed.
